(** * fileconveyor: the path scanner (code/daemon/pathscanner.py)

    A shallow embedding of [PathScanner]: the sqlite3 table of
    [(path, filename, mtime)] rows, the directory lister, the tree walker,
    the change detector [__scanhelper] and the public entry points
    [initial_scan], [scan], [scan_tree] and [remove], followed by the
    properties of the change-detection engine.

    Conventions of the embedding.
    - Python [str] is [string]; [os.sep] is ["/"] and [os.path] is
      [posixpath].
    - The sqlite3 table is a list of rows in rowid order: the table has no
      key, so duplicates can exist and [UPDATE]/[DELETE] act on every
      matching row. The connection is the pair of what its cursor sees and
      what the last [commit()] made durable.
    - A Python [dict] keyed by file name is a [gmap string _], a [sets.Set]
      of names is a [gset string]; a [for] loop over a set visits
      [elements] of it. The statements are about membership, not about the
      order of the visit.
    - The file system is a pair of partial functions on path strings,
      [os.listdir] and [os.stat]; [None] stands for a raised [os.error]. It
      does not change while a method runs.
    - A raised exception is [Raise e] and leaves no connection behind. The
      generators [__walktree] and [scan_tree] take a fuel argument (links
      can make a tree endless) and are consumed completely.
    - The module-level [scanner] that [initial_scan] and [scan] call is the
      object itself, as in the sample usage at the end of the module. *)

From Stdlib Require Import ZArith String Ascii List Bool Lia.
From stdpp Require Import gmap strings list fin_maps.

Local Open Scope Z_scope.
#[local] Set Warnings "-clear-no-such-hyp".

(** ** Python strings and [os.path] (posixpath) *)

Module Path.

Definition sep : string := "/".

(** [s[n:]] *)
Fixpoint slice_from (n : nat) (s : string) : string :=
  match n, s with
  | O, _ => s
  | S _, EmptyString => EmptyString
  | S n', String _ s' => slice_from n' s'
  end.

(** [b.startswith('/')] *)
Definition startswith_sep (b : string) : bool :=
  match b with
  | String c _ => Ascii.eqb c "/"
  | EmptyString => false
  end.

(** [a.endswith('/')] *)
Fixpoint endswith_sep (a : string) : bool :=
  match a with
  | EmptyString => false
  | String c EmptyString => Ascii.eqb c "/"
  | String _ a' => endswith_sep a'
  end.

(** [posixpath.join(a, b)] for one component [b]. *)
Definition join (a b : string) : string :=
  if startswith_sep b then b
  else if String.eqb a "" || endswith_sep a then a +:+ b
  else a +:+ sep +:+ b.

(** [(p[:i], p[i:])] with [i = p.rfind('/') + 1]. *)
Fixpoint rsplit (p : string) : string * string :=
  match p with
  | EmptyString => (EmptyString, EmptyString)
  | String c p' =>
      let '(head, tail) := rsplit p' in
      match head with
      | EmptyString =>
          if Ascii.eqb c "/" then (String c EmptyString, tail)
          else (EmptyString, String c tail)
      | _ => (String c head, tail)
      end
  end.

(** [head == '/' * len(head)] *)
Fixpoint all_sep (head : string) : bool :=
  match head with
  | EmptyString => true
  | String c head' => Ascii.eqb c "/" && all_sep head'
  end.

(** [head.rstrip('/')] *)
Fixpoint rstrip_sep (head : string) : string :=
  match head with
  | EmptyString => EmptyString
  | String c head' =>
      match rstrip_sep head' with
      | EmptyString => if Ascii.eqb c "/" then EmptyString else String c EmptyString
      | r => String c r
      end
  end.

(** [posixpath.dirname(p)] *)
Definition dirname (p : string) : string :=
  let head := fst (rsplit p) in
  if negb (String.eqb head "") && negb (all_sep head)
  then rstrip_sep head else head.

(** [posixpath.basename(p)] *)
Definition basename (p : string) : string := snd (rsplit p).

(** The separator occurs in [s]. *)
Fixpoint has_sep (s : string) : bool :=
  match s with
  | EmptyString => false
  | String c s' => Ascii.eqb c "/" || has_sep s'
  end.

End Path.

(** ** The sqlite3 table *)

Module Sql.

(** One row of [CREATE TABLE t(path text, filename text, mtime integer)]. *)
Record row := Row { r_path : string; r_filename : string; r_mtime : Z }.

(** The connection: [table] is what its cursor sees, [committed] what the
    last [commit()] made durable. *)
Record db := Db { table : list row; committed : list row }.

Definition commit (d : db) : db := Db (table d) (table d).

Definition with_table (f : list row → list row) (d : db) : db :=
  Db (f (table d)) (committed d).

(** ASCII lower case, the folding of sqlite's default [LIKE]. *)
Definition ascii_lower (c : ascii) : ascii :=
  let n := N_of_ascii c in
  if ((65 <=? n) && (n <=? 90))%N then ascii_of_N (n + 32) else c.

(** [s LIKE pattern] without [ESCAPE]: [%] matches any run of characters,
    [_] any one character, the others themselves up to ASCII case. *)
Fixpoint like (pattern : string) : string → bool :=
  match pattern with
  | EmptyString => fun s => match s with EmptyString => true | _ => false end
  | String c pattern' =>
      if Ascii.eqb c "%" then
        fix any (s : string) : bool :=
          like pattern' s
          || match s with EmptyString => false | String _ s' => any s' end
      else fun s =>
        match s with
        | EmptyString => false
        | String d s' =>
            (Ascii.eqb c "_" || Ascii.eqb (ascii_lower c) (ascii_lower d))
            && like pattern' s'
        end
  end.

(** The wildcard [%] occurs in [s]. *)
Fixpoint has_percent (s : string) : bool :=
  match s with
  | EmptyString => false
  | String c s' => Ascii.eqb c "%" || has_percent s'
  end.

(** [SELECT COUNT(filename) FROM t WHERE path=?] *)
Definition count_where_path (path : string) (d : db) : Z :=
  Z.of_nat (length (filter (λ r, r_path r = path) (table d))).

(** [SELECT filename, mtime FROM t WHERE path=?] *)
Definition select_where_path (path : string) (d : db) : list (string * Z) :=
  (λ r, (r_filename r, r_mtime r)) <$> filter (λ r, r_path r = path) (table d).

(** [SELECT * FROM t WHERE path LIKE ?] *)
Definition select_where_path_like (pattern : string) (d : db) : list row :=
  filter (λ r, like pattern (r_path r) = true) (table d).

(** [INSERT INTO t VALUES(?, ?, ?)] *)
Definition insert (r : row) : db → db := with_table (λ t, t ++ [r]).

(** [UPDATE t SET mtime=? WHERE path=? AND filename=?] *)
Definition update_mtime (mtime : Z) (path filename : string) : db → db :=
  with_table (fmap (λ r,
    if bool_decide (r_path r = path ∧ r_filename r = filename)
    then Row (r_path r) (r_filename r) mtime else r)).

(** [DELETE FROM t WHERE path=? AND filename=?] *)
Definition delete_where (path filename : string) : db → db :=
  with_table (filter (λ r, ¬ (r_path r = path ∧ r_filename r = filename))).

(** [DELETE FROM t WHERE path LIKE ?] *)
Definition delete_where_path_like (pattern : string) : db → db :=
  with_table (filter (λ r, like pattern (r_path r) ≠ true)).

End Sql.

Export Sql.

(** ** The file system and exceptions *)

(** [os.listdir(p)] and [os.stat(p)] reduced to what the scanner reads:
    the names in a directory, and [(st[ST_MTIME], S_ISDIR(st_mode))]. *)
Record filesystem := Fs {
  os_listdir : string → option (list string);
  os_stat : string → option (Z * bool)
}.

Inductive exn := OSError | KeyError | OutOfFuel.

Inductive result (A : Type) :=
| Ok (a : A)
| Raise (e : exn).
Arguments Ok {A} a.
Arguments Raise {A} e.

Global Instance result_ret : MRet result := λ A a, Ok a.

Global Instance result_bind : MBind result := λ A B k m,
  match m with
  | Ok a => k a
  | Raise e => Raise e
  end.

(** [d[k]], raising [KeyError] on a missing key. *)
Definition getitem {V} (d : gmap string V) (k : string) : result V :=
  match d !! k with
  | Some v => Ok v
  | None => Raise KeyError
  end.

(** A [for] loop whose body can raise, threading the loop state. *)
Fixpoint for_each {A S} (xs : list A) (body : S → A → result S) (s : S) : result S :=
  match xs with
  | [] => Ok s
  | x :: xs' => s' ← body s x; for_each xs' body s'
  end.

(** ** PathScanner *)

(** The value of a [return]: [False], or [None] at the end of the body. *)
Inductive pyvalue := PyFalse | PyNone.

(** The dictionary returned by [scan]: its three keys. *)
Record scan_result := ScanResult {
  created : gset string;
  deleted : gset string;
  modified : gset string
}.

Definition symmetric_difference (X Y : gset string) : gset string :=
  (X ∖ Y) ∪ (Y ∖ X).

(** A directory is stored with this mtime. *)
Definition dir_mtime : Z := -1.

(** [mtime if not is_dir else -1] *)
Definition stored_mtime (mtime : Z) (is_dir : bool) : Z :=
  if negb is_dir then mtime else dir_mtime.

(** [__listdir(path)]: the [(path, filename, mtime, is_dir)] tuples of the
    children whose [os.stat] succeeds. *)
Fixpoint __listdir_loop (fs : filesystem) (path : string) (filenames : list string)
  : list (string * string * Z * bool) :=
  match filenames with
  | [] => []
  | filename :: filenames' =>
      match os_stat fs (Path.join path filename) with
      | Some (mtime, is_dir) =>
          (path, filename, mtime, is_dir) :: __listdir_loop fs path filenames'
      | None => __listdir_loop fs path filenames'
      end
  end.

Definition __listdir (fs : filesystem) (path : string)
  : result (list (string * string * Z * bool)) :=
  match os_listdir fs path with
  | None => Raise OSError
  | Some filenames => Ok (__listdir_loop fs path filenames)
  end.

(** The [for] loop of [__walktree] over the listing, with [rows] collected
    so far; [recurse] is the recursive call. The batches come in the order
    they are yielded, the children's before the directory's own. *)
Fixpoint __walktree_loop (recurse : string → result (list (list row)))
    (entries : list (string * string * Z * bool)) (rows : list row)
  : result (list (list row)) :=
  match entries with
  | [] => Ok [rows]
  | (path, filename, mtime, is_dir) :: entries' =>
      let rows := rows ++ [Row path filename (stored_mtime mtime is_dir)] in
      if is_dir then
        childrows ← recurse (Path.join path filename);
        yielded ← __walktree_loop recurse entries' rows;
        Ok (childrows ++ yielded)
      else __walktree_loop recurse entries' rows
  end.

(** [__walktree(path)] *)
Fixpoint __walktree (fuel : nat) (fs : filesystem) (path : string)
  : result (list (list row)) :=
  match fuel with
  | O => Raise OutOfFuel
  | S fuel' =>
      entries ← __listdir fs path;
      __walktree_loop (__walktree fuel' fs) entries []
  end.

(** The body of the [for row in files] loop of [initial_scan]: the state is
    the connection and [num_uncommitted_rows]. *)
Definition insert_batched (commit_interval : Z) (st : db * Z) (r : row) : db * Z :=
  let '(d, num_uncommitted_rows) := st in
  let d := Sql.insert r d in
  let num_uncommitted_rows := num_uncommitted_rows + 1 in
  if bool_decide (num_uncommitted_rows = commit_interval)
  then (commit d, 0)
  else (d, num_uncommitted_rows).

(** [initial_scan(path)] *)
Definition initial_scan (commit_interval : Z) (fuel : nat) (fs : filesystem)
    (path : string) (d : db) : result (pyvalue * db) :=
  if bool_decide (count_where_path path d > 0) then Ok (PyFalse, d)
  else
    batches ← __walktree fuel fs path;
    let '(d, _) :=
      foldl (λ st files,
               if bool_decide (length files ≠ 0%nat)
               then foldl (insert_batched commit_interval) st files
               else st)
            (d, 0) batches in
    Ok (PyNone, commit d).

(** [__scanhelper], step 3: the loop over [possibly_modified_files]. Both
    tuple assignments rebind [filename]; the name added is the one of the
    [new_files] tuple. *)
Definition modified_step (old_files new_files : gmap string (string * Z))
    (acc : gset string) (filename : string) : result (gset string) :=
  '(filename, old_mtime) ← getitem old_files filename;
  '(filename, new_mtime) ← getitem new_files filename;
  if bool_decide (old_mtime ≠ new_mtime)
  then Ok (acc ∪ {[filename]})
  else Ok acc.

(** [os.path.join(subpath, subfilename)[len(path) + 1:]] *)
Definition relative_to (path : string) (r : row) : string :=
  Path.slice_from (String.length path + 1)
                  (Path.join (r_path r) (r_filename r)).

(** [__scanhelper], step 4: the loop over [result["deleted"]], which
    collects [deleted_tree]. *)
Definition deleted_tree_step (d : db) (path : string)
    (old_files : gmap string (string * Z))
    (deleted_tree : gset string) (deleted_file : string) : result (gset string) :=
  '(filename, mtime) ← getitem old_files deleted_file;
  if bool_decide (mtime = -1) then
    let dirpath := path +:+ Path.sep +:+ filename in
    let files_in_dir := select_where_path_like (dirpath +:+ "%") d in
    Ok (foldl (λ acc r, acc ∪ {[relative_to path r]}) deleted_tree files_in_dir)
  else Ok deleted_tree.

(** [__scanhelper(path, old_files, new_files)] *)
Definition __scanhelper (d : db) (path : string)
    (old_files new_files : gmap string (string * Z)) : result scan_result :=
  let old_filenames : gset string := dom old_files in
  let new_filenames : gset string := dom new_files in
  (* Step 1 *)
  let created := new_filenames ∖ old_filenames in
  (* Step 2 *)
  let deleted := old_filenames ∖ new_filenames in
  (* Step 3 *)
  let possibly_modified_files := new_filenames ∪ old_filenames in
  let possibly_modified_files := symmetric_difference possibly_modified_files created in
  let possibly_modified_files := symmetric_difference possibly_modified_files deleted in
  modified ← for_each (elements possibly_modified_files)
                      (modified_step old_files new_files) ∅;
  (* Step 4 *)
  deleted_tree ← for_each (elements deleted) (deleted_tree_step d path old_files) ∅;
  Ok (ScanResult created (deleted ∪ deleted_tree) modified).

(** The dictionary [old_files] that [scan] builds from the fetched rows. *)
Definition old_files_of (fetched : list (string * Z)) : gmap string (string * Z) :=
  foldl (λ old_files '(filename, mtime), <[filename := (filename, mtime)]> old_files)
        ∅ fetched.

(** The dictionary [new_files] that [scan] builds from the listing. *)
Definition new_files_of (entries : list (string * string * Z * bool))
  : gmap string (string * Z) :=
  foldl (λ new_files '(_, filename, mtime, is_dir),
           <[filename := (filename, stored_mtime mtime is_dir)]> new_files)
        ∅ entries.

(** The three write loops of [scan]. *)
Definition insert_created (path : string) (new_files : gmap string (string * Z))
    (d : db) (filename : string) : result db :=
  '(filename, mtime) ← getitem new_files filename;
  Ok (Sql.insert (Row path filename mtime) d).

Definition update_modified (path : string) (new_files : gmap string (string * Z))
    (d : db) (filename : string) : result db :=
  '(filename, mtime) ← getitem new_files filename;
  Ok (update_mtime mtime path filename d).

Definition delete_deleted (path : string) (d : db) (filename : string) : result db :=
  let realpath :=
    if bool_decide (String.length (Path.dirname filename) ≠ 0%nat)
    then path +:+ Path.sep +:+ Path.dirname filename
    else path in
  let realfilename := Path.basename filename in
  Ok (delete_where realpath realfilename d).

(** [scan(path)] *)
Definition scan (fs : filesystem) (path : string) (d : db)
  : result (scan_result * db) :=
  let old_files := old_files_of (select_where_path path d) in
  entries ← __listdir fs path;
  let new_files := new_files_of entries in
  scan_result ← __scanhelper d path old_files new_files;
  d ← for_each (elements (created scan_result)) (insert_created path new_files) d;
  let d := commit d in
  d ← for_each (elements (modified scan_result)) (update_modified path new_files) d;
  let d := commit d in
  d ← for_each (elements (deleted scan_result)) (delete_deleted path) d;
  let d := commit d in
  Ok (scan_result, d).

(** [scan_tree]: every name of the three sets gets [path + os.sep] in
    front. *)
Definition prepend_path (path : string) (X : gset string) : gset string :=
  foldl (λ tmp filename, tmp ∪ {[path +:+ Path.sep +:+ filename]}) ∅ (elements X).

Definition prepend_result (path : string) (res : scan_result) : scan_result :=
  ScanResult (prepend_path path (created res))
             (prepend_path path (deleted res))
             (prepend_path path (modified res)).

(** The second loop of [scan_tree], over [os.listdir(path)]; [recurse] is
    the recursive call, whose yields are passed on. *)
Fixpoint scan_tree_loop (recurse : string → db → result (list (string * scan_result) * db))
    (fs : filesystem) (path : string) (filenames : list string) (d : db)
  : result (list (string * scan_result) * db) :=
  match filenames with
  | [] => Ok ([], d)
  | filename :: filenames' =>
      match os_stat fs (Path.join path filename) with
      | None => scan_tree_loop recurse fs path filenames' d
      | Some (_, is_dir) =>
          if is_dir then
            '(sub, d) ← recurse (Path.join path filename) d;
            '(rest, d) ← scan_tree_loop recurse fs path filenames' d;
            Ok (sub ++ rest, d)
          else scan_tree_loop recurse fs path filenames' d
      end
  end.

(** [scan_tree(path)]: the yielded [(path, result)] pairs in order, and the
    connection after the generator is exhausted. *)
Fixpoint scan_tree (fuel : nat) (fs : filesystem) (path : string) (d : db)
  : result (list (string * scan_result) * db) :=
  match fuel with
  | O => Raise OutOfFuel
  | S fuel' =>
      '(res, d) ← scan fs path d;
      let res := prepend_result path res in
      filenames ← from_option Ok (Raise OSError) (os_listdir fs path);
      '(yielded, d) ← scan_tree_loop (scan_tree fuel' fs) fs path filenames d;
      Ok ((path, res) :: yielded, d)
  end.

Arguments scan_tree : simpl never.

(** [remove(path)] *)
Definition remove (path : string) (d : db) : db :=
  commit (delete_where_path_like (path +:+ "%") d).

(** ** Concrete file systems *)

(** What a path names: a file with its mtime, or a directory with its mtime
    and the names [os.listdir] returns for it. A name listed in a directory
    with no node of its own is one whose [os.stat] fails. *)
Inductive node :=
| File (mtime : Z)
| Dir (mtime : Z) (names : list string).

Fixpoint assoc (p : string) (nodes : list (string * node)) : option node :=
  match nodes with
  | [] => None
  | (q, n) :: nodes' => if String.eqb p q then Some n else assoc p nodes'
  end.

Definition fs_of (nodes : list (string * node)) : filesystem :=
  Fs (λ p, match assoc p nodes with
           | Some (Dir _ names) => Some names
           | _ => None
           end)
     (λ p, match assoc p nodes with
           | Some (File mtime) => Some (mtime, false)
           | Some (Dir mtime _) => Some (mtime, true)
           | None => None
           end).

(** No file of [nodes] has a negative mtime. *)
Definition file_mtimes_nonnegb (nodes : list (string * node)) : bool :=
  forallb (λ '(_, n), match n with File mtime => 0 <=? mtime | Dir _ _ => true end)
          nodes.

Definition empty_db : db := Db [] [].

(** ** Vocabulary of the statements *)

(** [s] starts with [prefix]. *)
Definition starts_with (s prefix : string) : Prop := ∃ rest, s = prefix +:+ rest.

(** The full path of a row: its directory path, the separator, its name. *)
Definition full_path (r : row) : string :=
  r_path r +:+ Path.sep +:+ r_filename r.

(** The shape the docstring of [__scanhelper] asks of its dictionaries:
    [(filename, mtime)] tuples keyed by that filename. *)
Definition well_keyed (files : gmap string (string * Z)) : Prop :=
  map_Forall (λ k v, v.1 = k) files.

(** The name is in both snapshots, with different mtimes. *)
Definition mtime_differs (old_files new_files : gmap string (string * Z))
    (name : string) : Prop :=
  ∃ old_mtime new_mtime,
    old_files !! name = Some (name, old_mtime)
    ∧ new_files !! name = Some (name, new_mtime)
    ∧ old_mtime ≠ new_mtime.

(** A persisted row below a deleted directory, as the query of step 4
    selects it. *)
Definition cascaded (d : db) (path : string) (old_files : gmap string (string * Z))
    (names : list string) (p : string) : Prop :=
  ∃ name filename r,
    name ∈ names
    ∧ old_files !! name = Some (filename, -1)
    ∧ r ∈ table d
    ∧ like ((path +:+ Path.sep +:+ filename) +:+ "%") (r_path r) = true
    ∧ p = relative_to path r.

(** The names in both snapshots with the same mtime. The scanner does not
    compute this set; it is what steps 1 to 3 leave unclassified. *)
Definition unchanged (old_files new_files : gmap string (string * Z)) : gset string :=
  filter (λ name, snd <$> old_files !! name = snd <$> new_files !! name)
         (dom old_files ∩ dom new_files).

(** The mtime that [old_files_of] keeps for a name: the one fetched last. *)
Fixpoint latest (name : string) (fetched : list (string * Z)) : option Z :=
  match fetched with
  | [] => None
  | (filename, mtime) :: fetched' =>
      match latest name fetched' with
      | Some mtime' => Some mtime'
      | None => if decide (filename = name) then Some mtime else None
      end
  end.

(** What [__listdir] and the writers make of an entry: the row of a
    directory carries [-1], the row of anything else its real mtime. *)
Definition written_from (fs : filesystem) (r : row) : Prop :=
  ∃ mtime is_dir,
    os_stat fs (Path.join (r_path r) (r_filename r)) = Some (mtime, is_dir)
    ∧ r_mtime r = (if is_dir then -1 else mtime).

(** The premise of the data model: the real mtime of a file is never
    negative. *)
Definition file_mtimes_nonneg (fs : filesystem) : Prop :=
  ∀ p mtime, os_stat fs p = Some (mtime, false) → 0 ≤ mtime.

(** The sentinel invariant of a row with respect to the live entry. *)
Definition sentinel_holds (fs : filesystem) (r : row) : Prop :=
  ∃ mtime is_dir,
    os_stat fs (Path.join (r_path r) (r_filename r)) = Some (mtime, is_dir)
    ∧ (r_mtime r = -1 ↔ is_dir = true)
    ∧ (is_dir = false → r_mtime r = mtime ∧ 0 ≤ mtime).

(** ** Scenarios *)

(** Two sibling directories [/r/foo] and [/r/foobar], each with a file;
    then [/r/foo] is deleted. *)
Definition fs_siblings : filesystem :=
  fs_of [("/r", Dir 10 ["foo"; "foobar"]);
         ("/r/foo", Dir 11 ["y"]); ("/r/foo/y", File 4);
         ("/r/foobar", Dir 12 ["x"]); ("/r/foobar/x", File 5)].

Definition fs_siblings_later : filesystem :=
  fs_of [("/r", Dir 20 ["foobar"]);
         ("/r/foobar", Dir 12 ["x"]); ("/r/foobar/x", File 5)].

Definition db_siblings : db :=
  commit (Db [Row "/r/foo" "y" 4; Row "/r/foobar" "x" 5;
              Row "/r" "foo" (-1); Row "/r" "foobar" (-1)] []).

(** Two directories [/d] and [/d%%]: [/d] holds [a/f]; [/d%%] holds a
    directory [a] and a file [f]; then [/d%%/a] is deleted. *)
Definition fs_percent : filesystem :=
  fs_of [("/d", Dir 10 ["a"]); ("/d/a", Dir 11 ["f"]); ("/d/a/f", File 5);
         ("/d%%", Dir 12 ["a"; "f"]); ("/d%%/a", Dir 13 []); ("/d%%/f", File 7)].

Definition fs_percent_later : filesystem :=
  fs_of [("/d", Dir 10 ["a"]); ("/d/a", Dir 11 ["f"]); ("/d/a/f", File 5);
         ("/d%%", Dir 20 ["f"]); ("/d%%/f", File 7)].

(** Both trees are populated, then [/d%%] is scanned twice after the
    deletion of [/d%%/a], with nothing changing between the two scans. *)
Definition scan_twice_percent : result (db * scan_result * db * scan_result) :=
  '(_, d) ← initial_scan 50 4 fs_percent "/d" empty_db;
  '(_, d0) ← initial_scan 50 4 fs_percent "/d%%" d;
  '(first, d1) ← scan fs_percent_later "/d%%" d0;
  '(second, _) ← scan fs_percent_later "/d%%" d1;
  Ok (d0, first, d1, second).

(** An empty directory [/x]; then [/x/y/z.txt] is created. *)
Definition fs_x_empty : filesystem := fs_of [("/x", Dir 1 [])].

Definition fs_x_new : filesystem :=
  fs_of [("/x", Dir 2 ["y"]); ("/x/y", Dir 2 ["z.txt"]); ("/x/y/z.txt", File 7)].

(** A directory with an entry that vanished between [os.listdir] and
    [os.stat]. *)
Definition fs_vanished : filesystem :=
  fs_of [("/v", Dir 1 ["kept"; "vanished"; "sub"]);
         ("/v/kept", File 3); ("/v/sub", Dir 4 [])].


(** A directory [/x/a] holding a file [b], as [initial_scan("/x")] records
    them, and the old snapshot of [/x]. *)
Definition db_x : db :=
  commit (Db [Row "/x/a" "b" 5; Row "/x" "a" (-1)] []).

Definition old_x : gmap string (string * Z) :=
  old_files_of (select_where_path "/x" db_x).

(** The rows [initial_scan("/")] stores for [/a/b]: the children of the
    root under ["/"], those of [/a] under [os.path.join("/", "a")]. *)
Definition db_root : db :=
  commit (Db [Row "/a" "b" 5; Row "/" "a" (-1)] []).

Definition old_root : gmap string (string * Z) :=
  old_files_of (select_where_path "/" db_root).

(** A snapshot as [scan] builds it from [(filename, mtime)] pairs. *)
Definition snapshot (files : list (string * Z)) : gmap string (string * Z) :=
  old_files_of files.

(** ** Further vocabulary and scenarios *)

(** The key of a row: the two columns [UPDATE] and [DELETE] select by. *)
Definition row_key (r : row) : string * string := (r_path r, r_filename r).

(** At most one row per [(path, filename)]. *)
Definition unique_keys (t : list row) : Prop := NoDup (row_key <$> t).

(** The [(realpath, realfilename)] that the delete loop of [scan] computes
    for a reported name. *)
Definition delete_target (path filename : string) : string * string :=
  (if bool_decide (String.length (Path.dirname filename) ≠ 0%nat)
   then path +:+ Path.sep +:+ Path.dirname filename
   else path,
   Path.basename filename).

(** The row [__walktree] appends for a tuple of the listing. *)
Definition row_of_entry (e : string * string * Z * bool) : row :=
  let '(path, filename, mtime, is_dir) := e in
  Row path filename (stored_mtime mtime is_dir).

(** [os.listdir] returns names without a separator. *)
Definition listdir_names_plain (fs : filesystem) : Prop :=
  ∀ p names name,
    os_listdir fs p = Some names → name ∈ names → Path.has_sep name = false.

(** The names of [nodes] listed in directories hold no separator. *)
Definition listed_names_plainb (nodes : list (string * node)) : bool :=
  forallb (λ '(_, n), match n with
                      | File _ => true
                      | Dir _ names => forallb (λ name, negb (Path.has_sep name)) names
                      end) nodes.

(** A directory [/v] with a file and a subdirectory that [os.stat] shows
    but [os.listdir] refuses. *)
Definition fs_locked : filesystem :=
  Fs (λ p, if String.eqb p "/v" then Some ["kept"; "locked"] else None)
     (λ p, if String.eqb p "/v/kept" then Some (3, false)
           else if String.eqb p "/v/locked" then Some (4, true)
           else None).

(** Dictionaries that are not keyed by the names of their tuples. *)
Definition miskeyed_old : gmap string (string * Z) := {["a" := ("b", 1)]}.
Definition miskeyed_new : gmap string (string * Z) := {["a" := ("a", 1)]}.

(** [/x] after [/x/a] is gone and a file [c] has appeared. *)
Definition fs_x_later : filesystem :=
  fs_of [("/x", Dir 3 ["c"]); ("/x/c", File 9)].

(** [/x/a/b] on disk, as [db_x] records it. *)
Definition fs_x_ab : filesystem :=
  fs_of [("/x", Dir 1 ["a"]); ("/x/a", Dir 2 ["b"]); ("/x/a/b", File 5)].

(** The names of a result that [scan_tree] yields for [p] start with [p]
    and a separator. *)
Definition full_names (p : string) (res : scan_result) : Prop :=
  ∀ x, x ∈ created res ∪ deleted res ∪ modified res → starts_with x (p +:+ Path.sep).

(** The state of the insert loop of [initial_scan] after [batches]. *)
Definition insert_batches (commit_interval : Z) (st : db * Z)
    (batches : list (list row)) : db * Z :=
  foldl (λ st files,
           if bool_decide (length files ≠ 0%nat)
           then foldl (insert_batched commit_interval) st files
           else st)
        st batches.

(** [n] rows of the table are not committed yet. *)
Definition pending (d : db) (n : Z) : Prop :=
  ∃ rows, table d = committed d ++ rows ∧ Z.of_nat (length rows) = n.

(** ** The tree below a path *)

(** [q] is [p] or a directory below it that the second loop of [scan_tree]
    reaches from [p]: through listed names on which [os.stat] succeeds and
    shows a directory. *)
Inductive reachable (fs : filesystem) : string → string → Prop :=
| reachable_here p : reachable fs p p
| reachable_below p names name mtime q :
    os_listdir fs p = Some names → name ∈ names →
    os_stat fs (Path.join p name) = Some (mtime, true) →
    reachable fs (Path.join p name) q →
    reachable fs p q.

(** [path] and every directory [scan_tree] reaches from it can be listed,
    and the recursion is less than [fuel] calls deep. *)
Fixpoint listable_within (fs : filesystem) (fuel : nat) (path : string) : bool :=
  match fuel with
  | O => false
  | S fuel' =>
      match os_listdir fs path with
      | None => false
      | Some names =>
          forallb (λ name,
                     match os_stat fs (Path.join path name) with
                     | Some (_, true) => listable_within fs fuel' (Path.join path name)
                     | _ => true
                     end) names
      end
  end.

(** Two subtrees in [/x]: [/x/y/z.txt] and [/x/w/v/u.txt]. *)
Definition fs_x_two : filesystem :=
  fs_of [("/x", Dir 3 ["y"; "w"]);
         ("/x/y", Dir 2 ["z.txt"]); ("/x/y/z.txt", File 7);
         ("/x/w", Dir 4 ["v"]); ("/x/w/v", Dir 5 ["u.txt"]);
         ("/x/w/v/u.txt", File 8)].

(** The root with [/a/b]; then [/a] is deleted. *)
Definition fs_root : filesystem :=
  fs_of [("/", Dir 1 ["a"]); ("/a", Dir 2 ["b"]); ("/a/b", File 5)].

Definition fs_root_later : filesystem := fs_of [("/", Dir 3 [])].

(** The same below [/x/], a path given with its separator at the end. *)
Definition fs_x_sep : filesystem :=
  fs_of [("/x/", Dir 1 ["a"]); ("/x/a", Dir 2 ["b"]); ("/x/a/b", File 5)].

Definition fs_x_sep_later : filesystem := fs_of [("/x/", Dir 3 [])].

Definition db_x_sep : db :=
  commit (Db [Row "/x/a" "b" 5; Row "/x/" "a" (-1)] []).

(** * Properties *)

(** ** The library functions on known values *)

Example join_values :
  Path.join "/x" "y" = "/x/y" ∧ Path.join "/x/" "y" = "/x/y"
  ∧ Path.join "/" "a" = "/a" ∧ Path.join "" "a" = "a"
  ∧ Path.join "/x" "/abs" = "/abs".
Proof. repeat split. Qed.

Example dirname_basename_values :
  Path.dirname "foobar/x" = "foobar" ∧ Path.basename "foobar/x" = "x"
  ∧ Path.dirname "a" = "" ∧ Path.basename "a" = "a"
  ∧ Path.dirname "/f" = "/" ∧ Path.dirname "a//b" = "a"
  ∧ Path.dirname "a/b/" = "a/b" ∧ Path.basename "a/b/" = "".
Proof. repeat split. Qed.

Example slice_values :
  Path.slice_from 3 "/x/a/b" = "a/b" ∧ Path.slice_from 9 "/x" = "".
Proof. repeat split. Qed.

Example like_values :
  like "/r/foo%" "/r/foo" = true ∧ like "/r/foo%" "/r/foo/sub" = true
  ∧ like "/r/foo%" "/r/foobar" = true ∧ like "/r/foo%" "/r/fo" = false
  ∧ like "/r/foo%" "/R/FOO" = true ∧ like "a_c%" "abc" = true
  ∧ like "a_c%" "ac" = false ∧ like "/d%%/a%" "/d/a" = true
  ∧ like "abc" "abcd" = false.
Proof. repeat split. Qed.

(** ** Strings *)

Lemma app_cons_s (x : ascii) (a b : string) :
  String x a +:+ b = String x (a +:+ b).
Proof. reflexivity. Qed.

Lemma app_assoc_s (a b c : string) : (a +:+ b) +:+ c = a +:+ (b +:+ c).
Proof.
  induction a as [|x a IH]; [done|]. rewrite !app_cons_s. by f_equal.
Qed.

Lemma slice_from_app (a b : string) : Path.slice_from (String.length a) (a +:+ b) = b.
Proof.
  induction a as [|x a IH]; [by destruct b|]. rewrite app_cons_s. exact IH.
Qed.

Lemma has_sep_app (a b : string) :
  Path.has_sep (a +:+ b) = Path.has_sep a || Path.has_sep b.
Proof.
  induction a as [|x a IH]; [done|]. rewrite app_cons_s. simpl.
  rewrite IH. by rewrite orb_assoc.
Qed.

Lemma endswith_sep_app (a : string) (c : ascii) (b : string) :
  Path.endswith_sep (a +:+ String c b) = Path.endswith_sep (String c b).
Proof.
  induction a as [|x a IH]; [done|]. rewrite app_cons_s.
  destruct a; exact IH.
Qed.

Lemma endswith_sep_no_sep (a : string) :
  Path.has_sep a = false → Path.endswith_sep a = false.
Proof.
  induction a as [|x a IH]; simpl; [done|].
  intros [Hx Ha]%orb_false_elim. destruct a; [done | auto].
Qed.

Lemma startswith_sep_no_sep (b : string) :
  Path.has_sep b = false → Path.startswith_sep b = false.
Proof. destruct b as [|c b]; simpl; [done|]. by intros [? _]%orb_false_elim. Qed.

Lemma length_app_sep (path : string) :
  String.length (path +:+ Path.sep) = (String.length path + 1)%nat.
Proof.
  induction path as [|c path IH]; [done|]. rewrite app_cons_s. simpl. by rewrite IH.
Qed.

Lemma app_sep_not_empty (path name : string) :
  String.eqb (path +:+ Path.sep +:+ name) "" = false.
Proof. by destruct path. Qed.

(** ** The [LIKE] operator *)

Lemma like_percent (pattern s : string) :
  like (String "%" pattern) s
  = like pattern s
    || match s with
       | EmptyString => false
       | String _ s' => like (String "%" pattern) s'
       end.
Proof. by destruct s. Qed.

Lemma like_char (c : ascii) (pattern s : string) :
  Ascii.eqb c "%" = false →
  like (String c pattern) s
  = match s with
    | EmptyString => false
    | String d s' =>
        (Ascii.eqb c "_" || Ascii.eqb (ascii_lower c) (ascii_lower d))
        && like pattern s'
    end.
Proof. intros Hc. simpl. by rewrite Hc. Qed.

Lemma like_percent_here (pattern s : string) :
  like pattern s = true → like (String "%" pattern) s = true.
Proof. intros H. rewrite like_percent, H. done. Qed.

Lemma like_percent_skip (pattern : string) (c : ascii) (s : string) :
  like pattern s = true → like (String "%" pattern) (String c s) = true.
Proof.
  intros H. rewrite like_percent, (like_percent_here _ _ H). apply orb_true_r.
Qed.

Lemma like_any (s : string) : like "%" s = true.
Proof.
  induction s as [|c s IH]; [done|]. rewrite like_percent, IH. apply orb_true_r.
Qed.

(** A pattern [prefix%] matches every string that starts with [prefix],
    whatever characters [prefix] is made of. *)
Lemma like_prefix (prefix rest : string) :
  like (prefix +:+ "%") (prefix +:+ rest) = true.
Proof.
  induction prefix as [|c prefix IH].
  - apply like_any.
  - rewrite !app_cons_s. destruct (Ascii.eqb c "%") eqn:Hc.
    + apply Ascii.eqb_eq in Hc. subst c. by apply like_percent_skip.
    + rewrite (like_char _ _ _ Hc), IH, Ascii.eqb_refl, orb_true_r. done.
Qed.

(** A row whose full path lies below [dirpath] has a [path] column that
    starts with [dirpath], when its name holds no separator. *)
Lemma rooted_path_column (dirpath dir name rest : string) :
  Path.has_sep name = false →
  dir +:+ Path.sep +:+ name = (dirpath +:+ Path.sep) +:+ rest →
  starts_with dir dirpath.
Proof.
  intros Hname. revert dir.
  induction dirpath as [|c dirpath IH]; intros dir Heq.
  - by exists dir.
  - destruct dir as [|c' dir]; rewrite !app_cons_s in Heq.
    + change ("" +:+ Path.sep +:+ name) with (String "/" name) in Heq.
      injection Heq as _ Heq. subst name.
      rewrite app_assoc_s, has_sep_app in Hname.
      change (Path.sep +:+ rest) with (String "/" rest) in Hname.
      simpl in Hname. by rewrite orb_true_r in Hname.
    + injection Heq as -> Heq. destruct (IH _ Heq) as [u ->]. by exists u.
Qed.

(** ** Patterns without [%] *)

Lemma ascii_lower_sep (c : ascii) : ascii_lower c = "/"%char → c = "/"%char.
Proof.
  destruct c as [[] [] [] [] [] [] [] []]; vm_compute; intros H;
    first [reflexivity | discriminate H].
Qed.

Lemma like_sep (pattern s : string) :
  like (String "/" pattern) s = true →
  ∃ s', s = String "/" s' ∧ like pattern s' = true.
Proof.
  rewrite like_char by done. destruct s as [|c s]; [done|].
  intros [Hc Hs]%andb_prop. exists s. split; [|done]. f_equal.
  change (Ascii.eqb "/" "_" || Ascii.eqb (ascii_lower "/") (ascii_lower c))
    with (Ascii.eqb "/" (ascii_lower c)) in Hc.
  apply Ascii.eqb_eq in Hc. symmetry in Hc. by apply ascii_lower_sep in Hc.
Qed.

Lemma like_no_percent_cons (c : ascii) (pattern s : string) :
  Ascii.eqb c "%" = false → like (String c pattern) s = true →
  ∃ d s', s = String d s' ∧ like pattern s' = true.
Proof.
  intros Hc. rewrite (like_char _ _ _ Hc). destruct s as [|d s]; [done|].
  intros [_ Hs]%andb_prop. eauto.
Qed.

(** A string matched by a pattern that starts with [prefix], free of [%],
    splits after as many characters as [prefix] has. *)
Lemma like_no_percent_prefix (prefix pattern s : string) :
  has_percent prefix = false → like (prefix +:+ pattern) s = true →
  ∃ pre s', s = pre +:+ s' ∧ String.length pre = String.length prefix
            ∧ like pattern s' = true.
Proof.
  revert s. induction prefix as [|c prefix IH]; intros s Hfree Hlike.
  - by exists "", s.
  - simpl in Hfree. apply orb_false_elim in Hfree as [Hc Hfree].
    rewrite app_cons_s in Hlike.
    destruct (like_no_percent_cons _ _ _ Hc Hlike) as (d & s' & -> & Hs').
    destruct (IH _ Hfree Hs') as (pre & s'' & -> & Hlen & Hs'').
    exists (String d pre), s''. rewrite app_cons_s. simpl. auto.
Qed.

Lemma endswith_sep_has_sep (a : string) :
  Path.endswith_sep a = true → Path.has_sep a = true.
Proof.
  induction a as [|c a IH]; [done|]. simpl. destruct a as [|c' a].
  - intros ->. done.
  - intros H. rewrite (IH H). apply orb_true_r.
Qed.

(** The relative path of a row selected by the cascade holds a separator,
    when neither the scanned path nor the name of the deleted directory
    holds a [%], that name is not empty and the row's name holds no
    separator. *)
Lemma cascade_path_has_sep path filename r :
  has_percent path = false → has_percent filename = false → filename ≠ "" →
  Path.has_sep (r_filename r) = false →
  like ((path +:+ Path.sep +:+ filename) +:+ "%") (r_path r) = true →
  Path.has_sep (relative_to path r) = true.
Proof.
  intros Hpath Hname Hne Hsep Hlike.
  rewrite app_assoc_s in Hlike.
  destruct (like_no_percent_prefix _ _ _ Hpath Hlike) as (pre & s' & Hr & Hlen & Hs').
  change (Path.sep +:+ filename +:+ "%") with (String "/" (filename +:+ "%")) in Hs'.
  apply like_sep in Hs' as (s'' & -> & Hs'').
  destruct filename as [|c filename]; [done|].
  simpl in Hname. apply orb_false_elim in Hname as [Hc _].
  destruct (like_no_percent_cons c (filename +:+ "%") s'' Hc Hs'')
    as (d & tail & -> & _).
  unfold relative_to, Path.join. rewrite Hr, (startswith_sep_no_sep _ Hsep).
  assert (String.eqb (pre +:+ String "/" (String d tail)) "" = false) as ->
    by (by destruct pre).
  rewrite endswith_sep_app, orb_false_l.
  replace (String.length path + 1)%nat with (String.length (pre +:+ Path.sep))
    by (by rewrite length_app_sep, Hlen).
  destruct (Path.endswith_sep (String "/" (String d tail))) eqn:Hend.
  - replace ((pre +:+ String "/" (String d tail)) +:+ r_filename r)
      with ((pre +:+ Path.sep) +:+ String d tail +:+ r_filename r)
      by (by rewrite !app_assoc_s).
    rewrite slice_from_app, has_sep_app.
    change (Path.endswith_sep (String "/" (String d tail)))
      with (Path.endswith_sep (String d tail)) in Hend.
    by rewrite (endswith_sep_has_sep _ Hend).
  - replace ((pre +:+ String "/" (String d tail)) +:+ Path.sep +:+ r_filename r)
      with ((pre +:+ Path.sep) +:+ String d tail +:+ Path.sep +:+ r_filename r)
      by (by rewrite !app_assoc_s).
    rewrite slice_from_app, !has_sep_app. simpl. by rewrite !orb_true_r.
Qed.

(** ** Sets of names *)

Lemma possibly_modified_both (new_filenames old_filenames : gset string) :
  symmetric_difference
    (symmetric_difference (new_filenames ∪ old_filenames)
                          (new_filenames ∖ old_filenames))
    (old_filenames ∖ new_filenames)
  = new_filenames ∩ old_filenames.
Proof.
  unfold symmetric_difference. apply set_eq. intros x.
  destruct (decide (x ∈ new_filenames)), (decide (x ∈ old_filenames)); set_solver.
Qed.

Lemma elem_of_foldl_add {A} (f : A → string) (xs : list A) (acc : gset string) (p : string) :
  p ∈ foldl (λ acc x, acc ∪ {[f x]}) acc xs ↔ p ∈ acc ∨ ∃ x, x ∈ xs ∧ p = f x.
Proof.
  revert acc. induction xs as [|x xs IH]; intros acc; simpl.
  - split; [auto|]. intros [?|(? & Hx & _)]; [done|]. by apply elem_of_nil in Hx.
  - rewrite IH, elem_of_union, elem_of_singleton. split.
    + intros [[?| ->]|(y & ? & ->)]; [by left | right; exists x | right; exists y];
        split; auto; [left | by right].
    + intros [?|(y & [->|Hy]%elem_of_cons & ->)]; [by left; left | by left; right|].
      right. eauto.
Qed.

(** ** Snapshots *)

Lemma lookup_well_keyed files k :
  well_keyed files → k ∈ dom files → ∃ mtime, files !! k = Some (k, mtime).
Proof.
  intros Hwk [[f m] Hk]%elem_of_dom. specialize (Hwk _ _ Hk). simpl in Hwk.
  subst f. eauto.
Qed.

Lemma modified_step_eq old_files new_files acc x old_mtime new_mtime :
  old_files !! x = Some (x, old_mtime) →
  new_files !! x = Some (x, new_mtime) →
  modified_step old_files new_files acc x
  = Ok (if bool_decide (old_mtime ≠ new_mtime) then acc ∪ {[x]} else acc).
Proof.
  intros Ho Hn. unfold modified_step, getitem. rewrite Ho. simpl.
  rewrite Hn. simpl. by case_bool_decide.
Qed.

Lemma deleted_tree_step_eq d path old_files acc x filename mtime :
  old_files !! x = Some (filename, mtime) →
  deleted_tree_step d path old_files acc x
  = Ok (if bool_decide (mtime = -1)
        then foldl (λ acc r, acc ∪ {[relative_to path r]}) acc
               (select_where_path_like ((path +:+ Path.sep +:+ filename) +:+ "%") d)
        else acc).
Proof.
  intros Hx. unfold deleted_tree_step, getitem. rewrite Hx. simpl.
  by case_bool_decide.
Qed.

Lemma modified_loop old_files new_files xs acc :
  well_keyed old_files → well_keyed new_files →
  (∀ x, x ∈ xs → x ∈ dom old_files ∧ x ∈ dom new_files) →
  ∃ m, for_each xs (modified_step old_files new_files) acc = Ok m
       ∧ ∀ name, name ∈ m ↔
           name ∈ acc ∨ (name ∈ xs ∧ mtime_differs old_files new_files name).
Proof.
  intros Hold Hnew. revert acc.
  induction xs as [|x xs IH]; intros acc Hxs; simpl.
  - exists acc. split; [done|]. intros name. split; [auto|].
    intros [?|[Hx _]]; [done|]. by apply elem_of_nil in Hx.
  - destruct (Hxs x) as [Hxo Hxn]; [by left|].
    destruct (lookup_well_keyed _ _ Hold Hxo) as [mo Ho].
    destruct (lookup_well_keyed _ _ Hnew Hxn) as [mn Hn].
    rewrite (modified_step_eq _ _ _ _ _ _ Ho Hn). simpl.
    destruct (IH (if bool_decide (mo ≠ mn) then acc ∪ {[x]} else acc))
      as (m & Hm & Hin).
    { intros y Hy. apply Hxs. by right. }
    exists m. split.
    { exact Hm. }
    intros name. rewrite Hin. clear Hin Hm. unfold mtime_differs.
    case_bool_decide as Hne.
    + rewrite elem_of_union, elem_of_singleton, elem_of_cons. split.
      * intros [[?| ->]|[? ?]]; [by left | right | right; split; [by right|done]].
        split; [by left|]. eauto.
      * intros [?|[[->|?] ?]]; [by left; left | by left; right | by right].
    + rewrite elem_of_cons. split.
      * intros [?|[? ?]]; [by left | right; split; [by right|done]].
      * intros [?|[[->|?] Hd]]; [by left | | by right].
        destruct Hd as (mo' & mn' & Ho' & Hn' & Hd). congruence.
Qed.

Lemma deleted_tree_loop d path old_files xs acc :
  (∀ x, x ∈ xs → x ∈ dom old_files) →
  ∃ deleted_tree,
    for_each xs (deleted_tree_step d path old_files) acc = Ok deleted_tree
    ∧ ∀ p, p ∈ deleted_tree ↔ p ∈ acc ∨ cascaded d path old_files xs p.
Proof.
  revert acc. induction xs as [|x xs IH]; intros acc Hxs; simpl.
  - exists acc. split; [done|]. intros p. split; [auto|].
    intros [?|(? & ? & ? & Hx & _)]; [done|]. by apply elem_of_nil in Hx.
  - assert (x ∈ dom old_files) as [[filename mtime] Hx]%elem_of_dom
      by (apply Hxs; by left).
    rewrite (deleted_tree_step_eq _ _ _ _ _ _ _ Hx). simpl.
    case_bool_decide as Hm.
    +
      edestruct IH as (dt & Hdt & Hin); [by intros y Hy; apply Hxs; right|].
      exists dt. split; [exact Hdt|]. intros p. rewrite Hin, elem_of_foldl_add.
      clear Hin Hdt. unfold cascaded, select_where_path_like. split.
      * intros [[?|(r & Hr & ->)]|(n & f & r & ? & ?)]; [by left | |].
        -- apply list_elem_of_filter in Hr as [Hl Hr]. right.
           exists x, filename, r. subst mtime. repeat split; [by left|done..].
        -- right. exists n, f, r. intuition. by right.
      * intros [?|(n & f & r & [->|Hn]%elem_of_cons & Hf & Hr & Hl & ->)].
        -- by left; left.
        -- left; right. exists r. split; [|done].
           apply list_elem_of_filter. split; [|done]. congruence.
        -- right. exists n, f, r. done.
    +
      edestruct IH as (dt & Hdt & Hin); [by intros y Hy; apply Hxs; right|].
      exists dt. split; [exact Hdt|]. intros p. rewrite Hin. clear Hin Hdt.
      unfold cascaded. split.
      * intros [?|(n & f & r & ? & ?)]; [by left|]. right.
        exists n, f, r. intuition. by right.
      * intros [?|(n & f & r & [->|Hn]%elem_of_cons & Hf & ?)]; [by left| |].
        -- congruence.
        -- right. exists n, f, r. done.
Qed.

(** ** The change detector *)

(** What [__scanhelper] returns on well-keyed snapshots: it never raises,
    steps 1 to 3 are the set differences and the mtime comparison, and step
    4 adds [deleted_tree] to the names of step 2. *)
Lemma scanhelper_spec d path old_files new_files :
  well_keyed old_files → well_keyed new_files →
  ∃ deleted_tree changed,
    __scanhelper d path old_files new_files
    = Ok (ScanResult (dom new_files ∖ dom old_files)
                     ((dom old_files ∖ dom new_files) ∪ deleted_tree)
                     changed)
    ∧ for_each (elements (dom old_files ∖ dom new_files))
               (deleted_tree_step d path old_files) ∅ = Ok deleted_tree
    ∧ (∀ p, p ∈ deleted_tree ↔
         cascaded d path old_files (elements (dom old_files ∖ dom new_files)) p)
    ∧ (∀ name, name ∈ changed ↔ mtime_differs old_files new_files name).
Proof.
  intros Hold Hnew. unfold __scanhelper.
  rewrite possibly_modified_both.
  destruct (modified_loop old_files new_files
              (elements (dom new_files ∩ dom old_files)) ∅ Hold Hnew)
    as (changed & Hchanged & Hin).
  { intros x Hx%elem_of_elements. set_solver. }
  destruct (deleted_tree_loop d path old_files
              (elements (dom old_files ∖ dom new_files)) ∅)
    as (deleted_tree & Htree & Hin').
  { intros x Hx%elem_of_elements. set_solver. }
  exists deleted_tree, changed. rewrite Hchanged. simpl. rewrite Htree. simpl.
  split; [done|]. split; [done|]. split.
  - intros p. rewrite Hin'. set_solver.
  - intros name. rewrite Hin, elem_of_elements. split.
    + intros [?|[_ ?]]; [set_solver | done].
    + intros Hd. right. split; [|done].
      destruct Hd as (mo & mn & Ho & Hn & _).
      apply elem_of_intersection. split; apply elem_of_dom; eauto.
Qed.

Lemma well_keyed_decide (files : gmap string (string * Z)) :
  bool_decide (map_Forall (λ k (v : string * Z), v.1 = k) files) = true →
  well_keyed files.
Proof. intros H. by apply bool_decide_eq_true in H. Qed.

Lemma elem_of_unchanged old_files new_files name :
  name ∈ unchanged old_files new_files ↔
  ∃ old_name new_name mtime,
    old_files !! name = Some (old_name, mtime)
    ∧ new_files !! name = Some (new_name, mtime).
Proof.
  unfold unchanged. rewrite elem_of_filter, elem_of_intersection, !elem_of_dom.
  split.
  - intros (Heq & [[f m] Ho] & [[f' m'] Hn]). rewrite Ho, Hn in Heq.
    simpl in Heq. injection Heq as ->. eauto.
  - intros (f & f' & m & Ho & Hn). rewrite Ho, Hn. eauto.
Qed.

(** Steps 1 to 3 split the names of the two snapshots four ways. *)
Lemma steps_partition old_files new_files (changed : gset string) :
  well_keyed old_files → well_keyed new_files →
  (∀ name, name ∈ changed ↔ mtime_differs old_files new_files name) →
  let step1 := dom new_files ∖ dom old_files in
  let step2 := dom old_files ∖ dom new_files in
  let same := unchanged old_files new_files in
  step1 ∪ step2 ∪ changed ∪ same = dom new_files ∪ dom old_files
  ∧ step1 ## step2 ∧ step1 ## changed ∧ step1 ## same
  ∧ step2 ## changed ∧ step2 ## same ∧ changed ## same.
Proof.
  intros Hold Hnew Hch step1 step2 same.
  assert (Hsub : ∀ x, x ∈ changed → x ∈ dom old_files ∧ x ∈ dom new_files).
  { intros x (mo & mn & Ho & Hn & _)%Hch. split; apply elem_of_dom; eauto. }
  assert (Hsame : ∀ x, x ∈ same → x ∈ dom old_files ∧ x ∈ dom new_files).
  { intros x (f & f' & m & Ho & Hn)%elem_of_unchanged.
    split; apply elem_of_dom; eauto. }
  split; [|repeat split].
  - apply set_eq. intros x. subst step1 step2. split.
    + rewrite !elem_of_union, !elem_of_difference.
      intros [[[[? _]|[? _]]|?%Hsub]|?%Hsame]; tauto.
    + rewrite elem_of_union. intros Hx.
      destruct (decide (x ∈ dom new_files)) as [Hn|Hn];
        destruct (decide (x ∈ dom old_files)) as [Ho|Ho];
        [|set_solver..].
      destruct (lookup_well_keyed _ _ Hold Ho) as [mo Hmo].
      destruct (lookup_well_keyed _ _ Hnew Hn) as [mn Hmn].
      destruct (decide (mo = mn)) as [->|Hne].
      * apply elem_of_union_r, elem_of_unchanged. eauto.
      * apply elem_of_union_l, elem_of_union_r, Hch. exists mo, mn. done.
  - set_solver.
  - intros x Hx ?%Hsub. set_solver.
  - intros x Hx ?%Hsame. set_solver.
  - intros x Hx ?%Hsub. set_solver.
  - intros x Hx ?%Hsame. set_solver.
  - intros x (mo & mn & Ho & Hn & Hne)%Hch (f & f' & m & Ho' & Hn')%elem_of_unchanged.
    congruence.
Qed.

(** The relative path of a row directly inside the directory [name] of
    [path]. *)
Lemma relative_to_child (path name child : string) (mtime : Z) :
  Path.has_sep name = false → name ≠ "" → Path.has_sep child = false →
  relative_to path (Row (path +:+ Path.sep +:+ name) child mtime)
  = name +:+ Path.sep +:+ child.
Proof.
  intros Hname Hne Hchild. unfold relative_to, Path.join. simpl r_path.
  simpl r_filename. rewrite (startswith_sep_no_sep _ Hchild), app_sep_not_empty.
  assert (Path.endswith_sep (path +:+ Path.sep +:+ name) = false) as ->.
  { change (Path.sep +:+ name) with (String "/" name).
    rewrite endswith_sep_app. destruct name as [|c name]; [done|].
    by apply (endswith_sep_no_sep (String c name)). }
  simpl orb. cbv iota.
  replace ((path +:+ Path.sep +:+ name) +:+ Path.sep +:+ child)
    with ((path +:+ Path.sep) +:+ name +:+ Path.sep +:+ child)
    by (by rewrite !app_assoc_s).
  rewrite <- length_app_sep. apply slice_from_app.
Qed.

(** Step 4 on a row below a deleted directory. *)
Lemma cascade_rooted d path old_files new_files name r :
  well_keyed old_files → well_keyed new_files →
  old_files !! name = Some (name, -1) → name ∉ dom new_files →
  r ∈ table d → Path.has_sep (r_filename r) = false →
  starts_with (full_path r) ((path +:+ Path.sep +:+ name) +:+ Path.sep) →
  ∃ res, __scanhelper d path old_files new_files = Ok res
         ∧ name ∈ deleted res ∧ relative_to path r ∈ deleted res.
Proof.
  intros Hold Hnew Hname Hgone Hr Hsep [rest Hrest].
  destruct (scanhelper_spec d path _ _ Hold Hnew)
    as (tree & changed & Hres & _ & Htree & _).
  eexists. split; [exact Hres|]. simpl.
  assert (name ∈ dom old_files ∖ dom new_files) as Hdel.
  { apply elem_of_difference. split; [|done]. apply elem_of_dom. eauto. }
  split; [by apply elem_of_union_l|]. apply elem_of_union_r, Htree.
  exists name, name, r. split; [by apply elem_of_elements|].
  destruct (rooted_path_column _ _ _ _ Hsep Hrest) as [u ->].
  repeat split; [done..|]. apply like_prefix.
Qed.

(** ** The sets of the change detector *)

(** C2. For every pair of snapshots of a directory the change detector
    returns: created, the names of the new snapshot that the old one lacks;
    deleted, the names of the old snapshot that the new one lacks, to which
    the cascade of step 4 then adds [deleted_tree]; modified, the names in
    both snapshots whose mtimes differ. So a name in both snapshots is in
    modified exactly when its two mtimes differ. *)
Theorem change_detector_sets d path old_files new_files :
  well_keyed old_files → well_keyed new_files →
  ∃ res deleted_tree,
    __scanhelper d path old_files new_files = Ok res
    ∧ created res = dom new_files ∖ dom old_files
    ∧ for_each (elements (dom old_files ∖ dom new_files))
               (deleted_tree_step d path old_files) ∅ = Ok deleted_tree
    ∧ deleted res = (dom old_files ∖ dom new_files) ∪ deleted_tree
    ∧ (∀ name, name ∈ modified res ↔ mtime_differs old_files new_files name)
    ∧ (∀ name old_mtime new_mtime,
         old_files !! name = Some (name, old_mtime) →
         new_files !! name = Some (name, new_mtime) →
         (old_mtime = new_mtime → name ∉ modified res)
         ∧ (old_mtime ≠ new_mtime → name ∈ modified res)).
Proof.
  intros Hold Hnew.
  destruct (scanhelper_spec d path _ _ Hold Hnew)
    as (tree & changed & Hres & Htree & _ & Hch).
  eexists _, tree. split; [exact Hres|]. simpl. repeat split; try done.
  - by intros ?%Hch.
  - by intros ?%Hch.
  - intros -> (mo & mn & Ho & Hn & Hne)%Hch. congruence.
  - intros Hne. apply Hch. by exists old_mtime, new_mtime.
Qed.

Lemma change_detector_sets_witness :
  let old_files := snapshot [("a", 1); ("b", 2); ("gone", 7)] in
  let new_files := snapshot [("b", 3); ("a", 1); ("fresh", 9)] in
  well_keyed old_files ∧ well_keyed new_files
  ∧ ∃ res deleted_tree,
      __scanhelper db_x "/x" old_files new_files = Ok res
      ∧ created res = dom new_files ∖ dom old_files
      ∧ for_each (elements (dom old_files ∖ dom new_files))
                 (deleted_tree_step db_x "/x" old_files) ∅ = Ok deleted_tree
      ∧ deleted res = (dom old_files ∖ dom new_files) ∪ deleted_tree
      ∧ (∀ name, name ∈ modified res ↔ mtime_differs old_files new_files name)
      ∧ (∀ name old_mtime new_mtime,
           old_files !! name = Some (name, old_mtime) →
           new_files !! name = Some (name, new_mtime) →
           (old_mtime = new_mtime → name ∉ modified res)
           ∧ (old_mtime ≠ new_mtime → name ∈ modified res)).
Proof.
  intros old_files new_files.
  assert (Hold : well_keyed old_files)
    by (apply well_keyed_decide; vm_compute; reflexivity).
  assert (Hnew : well_keyed new_files)
    by (apply well_keyed_decide; vm_compute; reflexivity).
  split; [exact Hold|]. split; [exact Hnew|].
  exact (change_detector_sets db_x "/x" old_files new_files Hold Hnew).
Defined.

(** C8. An entry in both snapshots whose old mtime is the directory mark
    [-1] and whose new mtime is a file mtime [≥ 0], or the other way round,
    is classified as modified; an entry that carries [-1] in both snapshots
    is not modified (and, being in both, neither created). *)
Theorem type_change_is_modified d path old_files new_files name old_mtime new_mtime :
  well_keyed old_files → well_keyed new_files →
  old_files !! name = Some (name, old_mtime) →
  new_files !! name = Some (name, new_mtime) →
  ∃ res,
    __scanhelper d path old_files new_files = Ok res
    ∧ (old_mtime = (-1) ∧ 0 ≤ new_mtime → name ∈ modified res)
    ∧ (0 ≤ old_mtime ∧ new_mtime = (-1) → name ∈ modified res)
    ∧ (old_mtime = (-1) ∧ new_mtime = (-1) →
       (name ∉ modified res) ∧ (name ∉ created res)).
Proof.
  intros Hold Hnew Ho Hn.
  destruct (scanhelper_spec d path _ _ Hold Hnew)
    as (tree & changed & Hres & _ & _ & Hch).
  eexists. split; [exact Hres|]. simpl. split; [|split].
  - intros [-> ?]. apply Hch. exists (-1), new_mtime. repeat split; [done..|lia].
  - intros [? ->]. apply Hch. exists old_mtime, (-1). repeat split; [done..|lia].
  - intros [-> ->]. split.
    + intros (mo & mn & Ho' & Hn' & Hne)%Hch. congruence.
    + intros [_ Hno]%elem_of_difference. apply Hno, elem_of_dom. eauto.
Qed.

Lemma type_change_is_modified_witness :
  let old_files := snapshot [("was_dir", -1); ("was_file", 4); ("dir", -1)] in
  let new_files := snapshot [("was_dir", 8); ("was_file", -1); ("dir", -1)] in
  ∃ res,
    __scanhelper db_x "/x" old_files new_files = Ok res
    ∧ "was_dir" ∈ modified res ∧ "was_file" ∈ modified res
    ∧ ("dir" ∉ modified res) ∧ ("dir" ∉ created res).
Proof.
  intros old_files new_files.
  assert (Hold : well_keyed old_files)
    by (apply well_keyed_decide; vm_compute; reflexivity).
  assert (Hnew : well_keyed new_files)
    by (apply well_keyed_decide; vm_compute; reflexivity).
  destruct (type_change_is_modified db_x "/x" old_files new_files "was_dir" (-1) 8
              Hold Hnew eq_refl eq_refl) as (res & Hres & H1 & _).
  destruct (type_change_is_modified db_x "/x" old_files new_files "was_file" 4 (-1)
              Hold Hnew eq_refl eq_refl) as (res' & Hres' & _ & H2 & _).
  destruct (type_change_is_modified db_x "/x" old_files new_files "dir" (-1) (-1)
              Hold Hnew eq_refl eq_refl) as (res'' & Hres'' & _ & _ & H3).
  rewrite Hres in Hres', Hres''. injection Hres' as <-. injection Hres'' as <-.
  exists res. split; [exact Hres|].
  split; [apply H1; split; [reflexivity | lia]|].
  split; [apply H2; split; [lia | reflexivity]|].
  apply H3. split; reflexivity.
Defined.

(** The paths added by the cascade hold a separator, under the conditions
    of [cascade_path_has_sep]. *)
Lemma cascaded_has_sep d path old_files names p :
  has_percent path = false →
  (∀ r, r ∈ table d → Path.has_sep (r_filename r) = false) →
  (∀ name filename,
     name ∈ names → old_files !! name = Some (filename, -1) →
     filename ≠ "" ∧ has_percent filename = false) →
  cascaded d path old_files names p → Path.has_sep p = true.
Proof.
  intros Hpath Hrows Hnames (name & filename & r & Hin & Hold & Hr & Hlike & ->).
  destruct (Hnames _ _ Hin Hold) as [Hne Hfree].
  apply (cascade_path_has_sep path filename r); auto.
Qed.

(** ** Completeness of the classification *)

(** C4, as stated, fails: with [/x/a] deleted and a row for [/x/a/b]
    persisted, deleted is [{a, a/b}], and [a/b] is no name of either snapshot
    of [/x]. *)
Lemma partition_fails_after_cascade :
  ∃ res,
    __scanhelper db_x "/x" old_x ∅ = Ok res
    ∧ deleted res = {["a"; "a/b"]}
    ∧ created res ∪ deleted res ∪ modified res ∪ unchanged old_x ∅
      ≠ dom (∅ : gmap string (string * Z)) ∪ dom old_x.
Proof.
  exists (ScanResult ∅ {["a"; "a/b"]} ∅).
  split; [vm_compute; reflexivity|]. split; [reflexivity|].
  intros Heq. apply (f_equal (λ X : gset string, bool_decide ("a/b" ∈ X))) in Heq.
  vm_compute in Heq. discriminate.
Qed.

(** C4, amended. Created, the deleted names of step 2, modified and the
    unchanged names partition the names of the two snapshots. The cascade
    of step 4 leaves created and modified alone and adds [deleted_tree], the
    relative paths of the rows its query selects, to deleted; the union of
    the four sets is then the names of the two snapshots and
    [deleted_tree]. The added paths hold a separator, and so are names of
    neither snapshot and the four sets stay disjoint, when the scanned path
    and the old names hold no [%], the old names are not empty, and no name
    of the snapshots or of the table holds a separator. *)
Theorem partition_before_cascade d path old_files new_files :
  well_keyed old_files → well_keyed new_files →
  ∃ res deleted_tree,
    __scanhelper d path old_files new_files = Ok res
    ∧ for_each (elements (dom old_files ∖ dom new_files))
               (deleted_tree_step d path old_files) ∅ = Ok deleted_tree
    ∧ deleted res = (dom old_files ∖ dom new_files) ∪ deleted_tree
    ∧ (let step2 := dom old_files ∖ dom new_files in
       let same := unchanged old_files new_files in
       created res ∪ step2 ∪ modified res ∪ same = dom new_files ∪ dom old_files
       ∧ created res ## step2 ∧ created res ## modified res ∧ created res ## same
       ∧ step2 ## modified res ∧ step2 ## same ∧ modified res ## same)
    ∧ created res ∪ deleted res ∪ modified res ∪ unchanged old_files new_files
      = (dom new_files ∪ dom old_files) ∪ deleted_tree
    ∧ (∀ p, p ∈ deleted_tree ↔
         cascaded d path old_files (elements (dom old_files ∖ dom new_files)) p)
    ∧ (has_percent path = false →
       (∀ name, name ∈ dom old_files → name ≠ "" ∧ has_percent name = false) →
       (∀ name, name ∈ dom new_files ∪ dom old_files → Path.has_sep name = false) →
       (∀ r, r ∈ table d → Path.has_sep (r_filename r) = false) →
       (∀ p, p ∈ deleted_tree → Path.has_sep p = true)
       ∧ deleted_tree ## dom new_files ∪ dom old_files
       ∧ created res ## deleted res ∧ deleted res ## modified res
       ∧ deleted res ## unchanged old_files new_files).
Proof.
  intros Hold Hnew.
  destruct (scanhelper_spec d path _ _ Hold Hnew)
    as (tree & changed & Hres & Htree & Hcasc & Hch).
  pose proof (steps_partition _ _ changed Hold Hnew Hch) as Hpart.
  eexists _, tree. split; [exact Hres|]. simpl.
  split; [exact Htree|]. split; [done|]. split; [exact Hpart|].
  split; [|split; [exact Hcasc|]].
  { destruct Hpart as [<- _]. set_solver. }
  intros Hpath Hplain Hnames Hrows.
  assert (Hsep : ∀ p, p ∈ tree → Path.has_sep p = true).
  { intros p Hp%Hcasc. revert Hp. apply cascaded_has_sep; [done..|].
    intros name filename Hin Hname. pose proof (Hold _ _ Hname) as Hkey.
    simpl in Hkey. subst filename. apply Hplain, elem_of_dom. eauto. }
  assert (Hdisj : tree ## dom new_files ∪ dom old_files).
  { intros p Hp%Hsep Hn%Hnames. congruence. }
  split; [exact Hsep|]. split; [exact Hdisj|].
  destruct Hpart as (Hunion & H12 & H13 & H14 & H23 & H24 & H34).
  rewrite <- Hunion in Hdisj. set_solver.
Qed.

Lemma partition_before_cascade_witness :
  ∃ res,
    __scanhelper db_x "/x" old_x (snapshot [("new", 3)]) = Ok res
    ∧ created res ∪ (dom old_x ∖ dom (snapshot [("new", 3)])) ∪ modified res
        ∪ unchanged old_x (snapshot [("new", 3)])
      = dom (snapshot [("new", 3)]) ∪ dom old_x
    ∧ created res ## deleted res.
Proof.
  assert (Hold : well_keyed old_x)
    by (apply well_keyed_decide; vm_compute; reflexivity).
  assert (Hnew : well_keyed (snapshot [("new", 3)]))
    by (apply well_keyed_decide; vm_compute; reflexivity).
  destruct (partition_before_cascade db_x "/x" old_x (snapshot [("new", 3)]) Hold Hnew)
    as (res & tree & Hres & _ & _ & Hpart & _ & _ & Hafter).
  exists res. split; [exact Hres|]. split; [exact (proj1 Hpart)|].
  apply Hafter.
  - reflexivity.
  - intros name Hname. change (dom old_x) with ({["a"]} : gset string) in Hname.
    apply elem_of_singleton in Hname as ->. split; [discriminate | reflexivity].
  - intros name Hname.
    change (dom (snapshot [("new", 3)]) ∪ dom old_x)
      with ({["new"]} ∪ {["a"]} : gset string) in Hname.
    apply elem_of_union in Hname as [->%elem_of_singleton | ->%elem_of_singleton];
      reflexivity.
  - intros r Hr. change (table db_x) with [Row "/x/a" "b" 5; Row "/x" "a" (-1)] in Hr.
    apply elem_of_cons in Hr as [-> | Hr]; [reflexivity|].
    apply list_elem_of_singleton in Hr as ->. reflexivity.
Defined.

(** ** The cascade *)

(** X18. For a deleted name whose old record has mtime [-1], the change
    detector puts into deleted the name itself and the relative path of
    every persisted row whose full path starts with
    [path + os.sep + name + os.sep], the prefix its query is built from; a
    row [child] stored with the path column [path + os.sep + name] is
    reported as [name/child]. *)
Theorem cascade_reports_subtree d path old_files new_files name :
  well_keyed old_files → well_keyed new_files →
  old_files !! name = Some (name, -1) → name ∉ dom new_files →
  ∃ res,
    __scanhelper d path old_files new_files = Ok res
    ∧ name ∈ deleted res
    ∧ (∀ r, r ∈ table d → Path.has_sep (r_filename r) = false →
         starts_with (full_path r) ((path +:+ Path.sep +:+ name) +:+ Path.sep) →
         relative_to path r ∈ deleted res)
    ∧ (∀ child mtime,
         Row (path +:+ Path.sep +:+ name) child mtime ∈ table d →
         Path.has_sep name = false → name ≠ "" → Path.has_sep child = false →
         name +:+ Path.sep +:+ child ∈ deleted res).
Proof.
  intros Hold Hnew Hname Hgone.
  destruct (scanhelper_spec d path _ _ Hold Hnew)
    as (tree & changed & Hres & _ & Htree & _).
  eexists. split; [exact Hres|].
  assert (Hrooted : ∀ r, r ∈ table d → Path.has_sep (r_filename r) = false →
            starts_with (full_path r) ((path +:+ Path.sep +:+ name) +:+ Path.sep) →
            relative_to path r ∈ (dom old_files ∖ dom new_files) ∪ tree).
  { intros r Hr Hsep Hpre.
    destruct (cascade_rooted d path _ _ name r Hold Hnew Hname Hgone Hr Hsep Hpre)
      as (res' & Hres' & _ & Hin).
    rewrite Hres in Hres'. injection Hres' as <-. exact Hin. }
  split; [|split; [exact Hrooted|]].
  - simpl. apply elem_of_union_l, elem_of_difference. split; [|done].
    apply elem_of_dom. eauto.
  - intros child mtime Hrow Hn Hne Hchild. simpl.
    rewrite <- (relative_to_child path name child mtime Hn Hne Hchild).
    apply Hrooted; [done..|]. exists child. unfold full_path. simpl.
    by rewrite !app_assoc_s.
Qed.

Lemma cascade_reports_subtree_witness :
  ∃ res, __scanhelper db_x "/x" old_x ∅ = Ok res
         ∧ "a" ∈ deleted res ∧ "a/b" ∈ deleted res.
Proof.
  assert (Hnone : well_keyed (∅ : gmap string (string * Z)))
    by (apply well_keyed_decide; vm_compute; reflexivity).
  assert (Hgone : "a" ∉ dom (∅ : gmap string (string * Z)))
    by (rewrite dom_empty_L; apply not_elem_of_empty).
  assert (Hold : well_keyed old_x)
    by (apply well_keyed_decide; vm_compute; reflexivity).
  destruct (cascade_reports_subtree db_x "/x" old_x ∅ "a" Hold Hnone eq_refl Hgone)
    as (res & Hres & Ha & _ & Hchild).
  exists res. split; [exact Hres|]. split; [exact Ha|].
  apply (Hchild "b" 5); [apply list_elem_of_here | reflexivity | discriminate
                        | reflexivity].
Defined.

(** C3, on the code: the cascade looks for rows under
    [path + os.sep + name], while [__walktree] stores the rows of a
    subdirectory under [os.path.join(path, name)]. The two differ when
    [path] ends in a separator. After [initial_scan("/")] of [/a/b] the
    rows are [("/", "a", -1)] and [("/a", "b", 5)]; once [/a] is deleted,
    the pattern [//a%] selects nothing, [scan("/")] reports [a] alone as
    deleted and leaves the row of [/a/b] in the table. The same happens
    for [/x/]. *)
Theorem cascade_misses_subtree_of_root :
  initial_scan 50 2 fs_root "/" empty_db = Ok (PyNone, db_root)
  ∧ select_where_path_like (("/" +:+ Path.sep +:+ "a") +:+ "%") db_root = []
  ∧ __scanhelper db_root "/" old_root ∅ = Ok (ScanResult ∅ {["a"]} ∅)
  ∧ scan fs_root_later "/" db_root
    = Ok (ScanResult ∅ {["a"]} ∅, commit (Db [Row "/a" "b" 5] []))
  ∧ initial_scan 50 2 fs_x_sep "/x/" empty_db = Ok (PyNone, db_x_sep)
  ∧ scan fs_x_sep_later "/x/" db_x_sep
    = Ok (ScanResult ∅ {["a"]} ∅, commit (Db [Row "/x/a" "b" 5] [])).
Proof. repeat split; vm_compute; reflexivity. Qed.

(** ** The prefix query *)

(** C1, on the code: the query of the cascade and of [remove] is
    [path LIKE dirpath%], with no separator before the wildcard. After
    [initial_scan("/r")] of the sibling directories [foo] and [foobar] the
    pattern [/r/foo%] selects the row of [/r/foobar/x], whose full path does
    not start with [/r/foo/]; once [/r/foo] is deleted, [scan("/r")] reports
    [foobar/x] deleted and deletes its row although the file is still
    there, and [remove("/r/foo")] deletes that row as well. *)
Theorem prefix_query_matches_sibling :
  initial_scan 50 4 fs_siblings "/r" empty_db = Ok (PyNone, db_siblings)
  ∧ select_where_path_like ("/r/foo" +:+ "%") db_siblings
    = [Row "/r/foo" "y" 4; Row "/r/foobar" "x" 5]
  ∧ ¬ starts_with (full_path (Row "/r/foobar" "x" 5)) ("/r/foo" +:+ Path.sep)
  ∧ os_stat fs_siblings_later "/r/foobar/x" = Some (5, false)
  ∧ scan fs_siblings_later "/r" db_siblings
    = Ok (ScanResult ∅ {["foo"; "foo/y"; "foobar/x"]} ∅,
          commit (Db [Row "/r" "foobar" (-1)] []))
  ∧ remove "/r/foo" db_siblings
    = commit (Db [Row "/r" "foo" (-1); Row "/r" "foobar" (-1)] []).
Proof.
  split; [vm_compute; reflexivity|]. split; [vm_compute; reflexivity|].
  split; [intros [rest Hrest]; vm_compute in Hrest; discriminate|].
  split; [vm_compute; reflexivity|]. split; vm_compute; reflexivity.
Qed.

(** ** The initial scan *)

Lemma initial_scan_populated commit_interval fuel fs path d :
  count_where_path path d > 0 →
  initial_scan commit_interval fuel fs path d = Ok (PyFalse, d).
Proof. intros Hcount. unfold initial_scan. by rewrite bool_decide_eq_true_2. Qed.

(** C6. When the table already holds a row for [path], [initial_scan(path)]
    returns [False] and leaves the connection as it was, whatever the file
    system holds (it is not consulted); so does a second call after it. *)
Theorem initial_scan_already_populated commit_interval path d :
  count_where_path path d > 0 →
  (∀ fuel fs, initial_scan commit_interval fuel fs path d = Ok (PyFalse, d))
  ∧ (∀ fuel fs fuel' fs',
       ('(_, d1) ← initial_scan commit_interval fuel fs path d;
        initial_scan commit_interval fuel' fs' path d1)
       = Ok (PyFalse, d)).
Proof.
  intros Hcount. split.
  - intros fuel fs. by apply initial_scan_populated.
  - intros fuel fs fuel' fs'. rewrite (initial_scan_populated _ _ _ _ _ Hcount).
    simpl. by apply initial_scan_populated.
Qed.

Lemma initial_scan_already_populated_witness :
  count_where_path "/x" db_x > 0
  ∧ initial_scan 50 0 fs_x_new "/x" db_x = Ok (PyFalse, db_x)
  ∧ ('(_, d1) ← initial_scan 50 4 fs_x_new "/x" db_x;
     initial_scan 50 4 fs_x_empty "/x" d1) = Ok (PyFalse, db_x).
Proof.
  assert (Hcount : count_where_path "/x" db_x > 0) by reflexivity.
  split; [exact Hcount|].
  destruct (initial_scan_already_populated 50 "/x" db_x Hcount) as [Hone Htwice].
  split; [apply Hone | apply Htwice].
Defined.

(** ** The directory lister *)

Lemma elem_of_listdir_loop fs path filenames p filename mtime is_dir :
  (p, filename, mtime, is_dir) ∈ __listdir_loop fs path filenames ↔
  p = path ∧ filename ∈ filenames
  ∧ os_stat fs (Path.join path filename) = Some (mtime, is_dir).
Proof.
  induction filenames as [|name filenames IH]; simpl.
  - split; [by intros ?%elem_of_nil | by intros (_ & ?%elem_of_nil & _)].
  - destruct (os_stat fs (Path.join path name)) as [[m b]|] eqn:Hstat.
    + rewrite elem_of_cons, IH, elem_of_cons. split.
      * intros [Heq|(-> & ? & ?)]; [|by auto].
        injection Heq as -> -> -> ->. auto.
      * intros (-> & [->|?] & Hs); [left | by right].
        rewrite Hstat in Hs. by injection Hs as -> ->.
    + rewrite IH, elem_of_cons. split; [by intros (-> & ? & ?); auto|].
      intros (-> & [->|?] & Hs); [congruence | done].
Qed.

(** ** The snapshots built by [scan] *)

Lemma old_files_of_well_keyed fetched : well_keyed (old_files_of fetched).
Proof.
  unfold old_files_of. generalize (∅ : gmap string (string * Z)) (map_Forall_empty
    (λ k (v : string * Z), v.1 = k) : well_keyed ∅).
  induction fetched as [|[filename mtime] fetched IH]; intros acc Hacc; simpl;
    [done|]. apply IH. by apply map_Forall_insert_2.
Qed.

Lemma new_files_of_acc (entries : list (string * string * Z * bool))
    (acc : gmap string (string * Z)) k v :
  foldl (λ new_files '(_, filename, mtime, is_dir),
           <[filename := (filename, stored_mtime mtime is_dir)]> new_files)
        acc entries !! k = Some v →
  acc !! k = Some v
  ∨ ∃ p mtime is_dir,
      (p, k, mtime, is_dir) ∈ entries ∧ v = (k, stored_mtime mtime is_dir).
Proof.
  revert acc. induction entries as [|[[[p f] m] b] entries IH]; intros acc; simpl;
    [by left|].
  intros [Hacc|(p' & m' & b' & Hin & ->)]%IH.
  - destruct (decide (f = k)) as [->|Hne].
    + rewrite lookup_insert_eq in Hacc. injection Hacc as <-.
      right. exists p, m, b. split; [by left | done].
    + rewrite lookup_insert_ne in Hacc by done. by left.
  - right. exists p', m', b'. split; [by right | done].
Qed.

Lemma new_files_of_lookup (entries : list (string * string * Z * bool)) k v :
  new_files_of entries !! k = Some v →
  ∃ p mtime is_dir,
    (p, k, mtime, is_dir) ∈ entries ∧ v = (k, stored_mtime mtime is_dir).
Proof.
  intros [Hempty|H]%new_files_of_acc; [|done]. by rewrite lookup_empty in Hempty.
Qed.

Lemma new_files_of_well_keyed entries : well_keyed (new_files_of entries).
Proof. intros k v (p & m & b & _ & ->)%new_files_of_lookup. done. Qed.

(** ** The write loops of [scan] *)

(** A row made of [path] and a tuple of [new_files]. *)
Lemma update_mtime_rows mtime path filename d r :
  r ∈ table (update_mtime mtime path filename d) →
  r ∈ table d ∨ r = Row path filename mtime.
Proof.
  unfold update_mtime, with_table. simpl.
  intros (r0 & -> & Hr0)%list_elem_of_fmap. case_bool_decide as Hkey; [|by left].
  destruct Hkey as [<- <-]. by right.
Qed.

Lemma insert_created_eq path new_files d x filename mtime :
  new_files !! x = Some (filename, mtime) →
  insert_created path new_files d x = Ok (Sql.insert (Row path filename mtime) d).
Proof. intros Hx. unfold insert_created, getitem. by rewrite Hx. Qed.

Lemma update_modified_eq path new_files d x filename mtime :
  new_files !! x = Some (filename, mtime) →
  update_modified path new_files d x = Ok (update_mtime mtime path filename d).
Proof. intros Hx. unfold update_modified, getitem. by rewrite Hx. Qed.

Lemma insert_loop path new_files xs d :
  (∀ x, x ∈ xs → x ∈ dom new_files) →
  ∃ d1, for_each xs (insert_created path new_files) d = Ok d1
        ∧ committed d1 = committed d
        ∧ ∀ r, r ∈ table d1 →
            r ∈ table d
            ∨ ∃ k filename mtime,
                new_files !! k = Some (filename, mtime) ∧ r = Row path filename mtime.
Proof.
  revert d. induction xs as [|x xs IH]; intros d Hxs; simpl.
  - exists d. auto.
  - assert (x ∈ dom new_files) as [[f m] Hx]%elem_of_dom by (apply Hxs; by left).
    rewrite (insert_created_eq _ _ _ _ _ _ Hx). simpl.
    destruct (IH (Sql.insert (Row path f m) d)) as (d1 & Hd1 & Hc & Hrows).
    { intros y Hy. apply Hxs. by right. }
    exists d1. split; [exact Hd1|]. split; [exact Hc|].
    intros r [Hr|Hr]%Hrows; [|by right].
    unfold Sql.insert, with_table in Hr. simpl in Hr.
    apply elem_of_app in Hr as [Hr| ->%list_elem_of_singleton]; [by left|].
    right. eauto.
Qed.

Lemma update_loop path new_files xs d :
  (∀ x, x ∈ xs → x ∈ dom new_files) →
  ∃ d1, for_each xs (update_modified path new_files) d = Ok d1
        ∧ committed d1 = committed d
        ∧ ∀ r, r ∈ table d1 →
            r ∈ table d
            ∨ ∃ k filename mtime,
                new_files !! k = Some (filename, mtime) ∧ r = Row path filename mtime.
Proof.
  revert d. induction xs as [|x xs IH]; intros d Hxs; simpl.
  - exists d. auto.
  - assert (x ∈ dom new_files) as [[f m] Hx]%elem_of_dom by (apply Hxs; by left).
    rewrite (update_modified_eq _ _ _ _ _ _ Hx). simpl.
    destruct (IH (update_mtime m path f d)) as (d1 & Hd1 & Hc & Hrows).
    { intros y Hy. apply Hxs. by right. }
    exists d1. split; [exact Hd1|]. split; [exact Hc|].
    intros r [Hr|Hr]%Hrows; [|by right].
    apply update_mtime_rows in Hr as [Hr| ->]; [by left|]. right. eauto.
Qed.

Lemma delete_loop path xs d :
  ∃ d1, for_each xs (delete_deleted path) d = Ok d1
        ∧ committed d1 = committed d
        ∧ ∀ r, r ∈ table d1 → r ∈ table d.
Proof.
  revert d. induction xs as [|x xs IH]; intros d; simpl.
  - exists d. auto.
  - unfold delete_deleted at 1. simpl.
    edestruct IH as (d1 & Hd1 & Hc & Hrows).
    exists d1. split; [exact Hd1|]. split; [exact Hc|].
    intros r Hr%Hrows. unfold delete_where, with_table in Hr. simpl in Hr.
    by apply list_elem_of_filter in Hr as [_ Hr].
Qed.

(** ** [scan] step by step *)

(** Once the listing is there, [scan] runs to its end: the change detector
    and the three write loops never raise. *)
Lemma scan_steps fs path d entries :
  __listdir fs path = Ok entries →
  ∃ res d1 d2 d3,
    __scanhelper d path (old_files_of (select_where_path path d))
                 (new_files_of entries) = Ok res
    ∧ for_each (elements (created res))
               (insert_created path (new_files_of entries)) d = Ok d1
    ∧ for_each (elements (modified res))
               (update_modified path (new_files_of entries)) (commit d1) = Ok d2
    ∧ for_each (elements (deleted res)) (delete_deleted path) (commit d2) = Ok d3
    ∧ scan fs path d = Ok (res, commit d3).
Proof.
  intros Hlist.
  pose proof (old_files_of_well_keyed (select_where_path path d)) as Hold.
  pose proof (new_files_of_well_keyed entries) as Hnew.
  destruct (scanhelper_spec d path _ _ Hold Hnew)
    as (tree & changed & Hres & _ & _ & Hch).
  destruct (insert_loop path (new_files_of entries)
              (elements (dom (new_files_of entries)
                         ∖ dom (old_files_of (select_where_path path d)))) d)
    as (d1 & Hd1 & _).
  { intros x Hx%elem_of_elements. set_solver. }
  destruct (update_loop path (new_files_of entries) (elements changed) (commit d1))
    as (d2 & Hd2 & _).
  { intros x (mo & mn & _ & Hn & _)%elem_of_elements%Hch. apply elem_of_dom. eauto. }
  destruct (delete_loop path
              (elements ((dom (old_files_of (select_where_path path d))
                          ∖ dom (new_files_of entries)) ∪ tree)) (commit d2))
    as (d3 & Hd3 & _).
  eexists _, d1, d2, d3. split; [exact Hres|]. simpl.
  split; [exact Hd1|]. split; [exact Hd2|]. split; [exact Hd3|].
  unfold scan. rewrite Hlist. simpl. rewrite Hres. simpl.
  rewrite Hd1. simpl. rewrite Hd2. simpl. rewrite Hd3. done.
Qed.

(** C9. When [os.listdir] succeeds, [__listdir] returns: its tuples are
    exactly the children whose [os.stat] succeeds, so a child whose
    [os.stat] raises is left out and every other child is produced; and the
    enclosing [scan] runs to its end. *)
Theorem listdir_skips_failing_entries fs path filenames :
  os_listdir fs path = Some filenames →
  ∃ entries,
    __listdir fs path = Ok entries
    ∧ (∀ p filename mtime is_dir,
         (p, filename, mtime, is_dir) ∈ entries ↔
         p = path ∧ filename ∈ filenames
         ∧ os_stat fs (Path.join path filename) = Some (mtime, is_dir))
    ∧ (∀ filename,
         filename ∈ filenames → os_stat fs (Path.join path filename) = None →
         ∀ p mtime is_dir, (p, filename, mtime, is_dir) ∉ entries)
    ∧ (∀ d, ∃ res d', scan fs path d = Ok (res, d')).
Proof.
  intros Hnames. exists (__listdir_loop fs path filenames).
  assert (Hlist : __listdir fs path = Ok (__listdir_loop fs path filenames))
    by (unfold __listdir; by rewrite Hnames).
  split; [exact Hlist|]. split; [|split].
  - intros p filename mtime is_dir. apply elem_of_listdir_loop.
  - intros filename _ Hfail p mtime is_dir (_ & _ & Hstat)%elem_of_listdir_loop.
    congruence.
  - intros d. destruct (scan_steps fs path d _ Hlist) as (res & _ & _ & d3 & _ & _ & _ & _ & Hscan).
    eauto.
Qed.

Lemma listdir_skips_failing_entries_witness :
  os_listdir fs_vanished "/v" = Some ["kept"; "vanished"; "sub"]
  ∧ os_stat fs_vanished (Path.join "/v" "vanished") = None
  ∧ __listdir fs_vanished "/v" = Ok [("/v", "kept", 3, false); ("/v", "sub", 4, true)]
  ∧ ∃ res d', scan fs_vanished "/v" empty_db = Ok (res, d').
Proof.
  split; [reflexivity|]. split; [reflexivity|]. split; [reflexivity|].
  destruct (listdir_skips_failing_entries fs_vanished "/v"
              ["kept"; "vanished"; "sub"] eq_refl)
    as (entries & _ & _ & _ & Hscan).
  exact (Hscan empty_db).
Defined.

(** ** The mtime written for an entry *)

Lemma written_from_entry fs p filename mtime is_dir :
  os_stat fs (Path.join p filename) = Some (mtime, is_dir) →
  written_from fs (Row p filename (stored_mtime mtime is_dir)).
Proof. intros Hstat. exists mtime, is_dir. split; [done|]. by destruct is_dir. Qed.

Lemma written_sentinel fs r :
  file_mtimes_nonneg fs → written_from fs r → sentinel_holds fs r.
Proof.
  intros Hnonneg (mtime & is_dir & Hstat & Hm). exists mtime, is_dir.
  split; [done|]. destruct is_dir.
  - split; [done|]. discriminate.
  - specialize (Hnonneg _ _ Hstat). split; [|by auto].
    split; [lia | discriminate].
Qed.

(** Every row of every batch of the tree walker. *)
Lemma walktree_loop_written fs recurse entries rows batches :
  (∀ p batches, recurse p = Ok batches →
     ∀ batch r, batch ∈ batches → r ∈ batch → written_from fs r) →
  (∀ p f m b, (p, f, m, b) ∈ entries → os_stat fs (Path.join p f) = Some (m, b)) →
  (∀ r, r ∈ rows → written_from fs r) →
  __walktree_loop recurse entries rows = Ok batches →
  ∀ batch r, batch ∈ batches → r ∈ batch → written_from fs r.
Proof.
  intros Hrec. revert rows batches.
  induction entries as [|[[[p f] m] b] entries IHe]; intros rows batches Hentries Hrows;
    simpl.
  - intros [= <-] batch r ->%list_elem_of_singleton. apply Hrows.
  - assert (Hrows' : ∀ r, r ∈ rows ++ [Row p f (stored_mtime m b)] → written_from fs r).
    { intros r [?| ->%list_elem_of_singleton]%elem_of_app; [by apply Hrows|].
      apply written_from_entry, Hentries. by left. }
    assert (Hentries' : ∀ p f m b, (p, f, m, b) ∈ entries →
              os_stat fs (Path.join p f) = Some (m, b)).
    { intros ? ? ? ? ?. apply Hentries. by right. }
    destruct b.
    + destruct (recurse (Path.join p f)) as [childrows|] eqn:Hchild; [|done].
      simpl.
      destruct (__walktree_loop recurse entries
                  (rows ++ [Row p f (stored_mtime m true)]))
        as [yielded|] eqn:Hloop; [|done].
      simpl. intros [= <-] batch r [Hb|Hb]%elem_of_app.
      * by eapply Hrec.
      * by eapply (IHe _ _ Hentries' Hrows' Hloop).
    + by apply IHe.
Qed.

Lemma walktree_written fs fuel path batches :
  __walktree fuel fs path = Ok batches →
  ∀ batch r, batch ∈ batches → r ∈ batch → written_from fs r.
Proof.
  revert path batches. induction fuel as [|fuel IH]; intros path batches; [done|].
  simpl. unfold __listdir. destruct (os_listdir fs path) as [filenames|]; [|done].
  simpl. apply walktree_loop_written.
  - exact IH.
  - by intros p f m b (-> & _ & ?)%elem_of_listdir_loop.
  - by intros r ?%elem_of_nil.
Qed.

Lemma insert_batched_table commit_interval files st :
  table (foldl (insert_batched commit_interval) st files).1 = table st.1 ++ files.
Proof.
  revert st. induction files as [|r files IH]; intros [d n]; simpl.
  - by rewrite app_nil_r.
  - rewrite IH. unfold insert_batched. case_bool_decide; simpl;
      by rewrite <- app_assoc.
Qed.

Lemma insert_batches_table commit_interval (batches : list (list row)) st :
  table (foldl (λ st files,
                  if bool_decide (length files ≠ 0%nat)
                  then foldl (insert_batched commit_interval) st files
                  else st) st batches).1
  = table st.1 ++ concat batches.
Proof.
  revert st. induction batches as [|files batches IH]; intros st; simpl.
  - by rewrite app_nil_r.
  - rewrite IH. case_bool_decide as Hlen.
    + by rewrite insert_batched_table, <- app_assoc.
    + destruct files; [done | by contradict Hlen].
Qed.

Lemma elem_of_concat (r : row) (batches : list (list row)) :
  r ∈ concat batches ↔ ∃ batch, r ∈ batch ∧ batch ∈ batches.
Proof.
  induction batches as [|b batches IH]; simpl.
  - split; [by intros ?%elem_of_nil | by intros (? & _ & ?%elem_of_nil)].
  - rewrite elem_of_app, IH. split.
    + intros [?|(batch & ? & ?)]; [exists b | exists batch]; split; auto; [left | by right].
    + intros (batch & ? & [->|?]%elem_of_cons); [by left | right; eauto].
Qed.

(** What [initial_scan] leaves in the table. *)
Lemma initial_scan_table commit_interval fuel fs path d v d' :
  initial_scan commit_interval fuel fs path d = Ok (v, d') →
  (v = PyFalse ∧ d' = d)
  ∨ ∃ batches,
      __walktree fuel fs path = Ok batches
      ∧ v = PyNone ∧ table d' = table d ++ concat batches
      ∧ committed d' = table d'.
Proof.
  unfold initial_scan. case_bool_decide; [intros [= <- <-]; by left|].
  destruct (__walktree fuel fs path) as [batches|]; [|done]. simpl.
  pose proof (insert_batches_table commit_interval batches (d, 0)) as Htable.
  destruct (foldl _ (d, 0) batches) as [d1 n]. simpl in Htable.
  intros [= <- <-]. right. exists batches. by rewrite <- Htable.
Qed.

(** Every row [scan] leaves in the table is a row that was there or one
    written from the listing. *)
Lemma scan_rows fs path d res d' :
  scan fs path d = Ok (res, d') →
  ∀ r, r ∈ table d' → r ∈ table d ∨ written_from fs r.
Proof.
  unfold scan. destruct (__listdir fs path) as [entries|] eqn:Hlist; [|done].
  simpl.
  assert (Hfrom : ∀ k filename mtime,
            new_files_of entries !! k = Some (filename, mtime) →
            written_from fs (Row path filename mtime)).
  { intros k f m (p & mtime & is_dir & Hin & [= -> ->])%new_files_of_lookup.
    unfold __listdir in Hlist. destruct (os_listdir fs path); [|done].
    injection Hlist as <-. apply elem_of_listdir_loop in Hin as (_ & _ & Hstat).
    by apply written_from_entry. }
  destruct (scanhelper_spec d path _ _
              (old_files_of_well_keyed (select_where_path path d))
              (new_files_of_well_keyed entries))
    as (tree & changed & -> & _ & _ & Hch).
  simpl.
  destruct (insert_loop path (new_files_of entries)
              (elements (dom (new_files_of entries)
                         ∖ dom (old_files_of (select_where_path path d)))) d)
    as (d1 & -> & _ & Hins).
  { intros x Hx%elem_of_elements. set_solver. }
  simpl.
  destruct (update_loop path (new_files_of entries) (elements changed) (commit d1))
    as (d2 & -> & _ & Hupd).
  { intros x (mo & mn & _ & Hn & _)%elem_of_elements%Hch. apply elem_of_dom. eauto. }
  simpl.
  destruct (delete_loop path
              (elements ((dom (old_files_of (select_where_path path d))
                          ∖ dom (new_files_of entries)) ∪ tree)) (commit d2))
    as (d3 & -> & _ & Hdel).
  simpl. intros [= <- <-] r Hr. simpl in Hr.
  apply Hdel in Hr. simpl in Hr.
  apply Hupd in Hr as [Hr|(k & f & m & Hk & ->)]; [|right; by eapply Hfrom].
  simpl in Hr.
  apply Hins in Hr as [Hr|(k & f & m & Hk & ->)]; [by left|].
  right. by eapply Hfrom.
Qed.

Lemma fs_of_nonneg nodes :
  file_mtimes_nonnegb nodes = true → file_mtimes_nonneg (fs_of nodes).
Proof.
  intros Hnodes p mtime. simpl.
  induction nodes as [|[q n] nodes IH]; simpl; [done|].
  simpl in Hnodes. apply andb_prop in Hnodes as [Hn Hnodes].
  destruct (String.eqb p q); [|by apply IH].
  destruct n; [|done]. intros [= <-]. lia.
Qed.

(** ** The sentinel *)

(** C10. Granted that no file has a negative mtime, every row written to
    the table carries mtime [-1] exactly when its entry is a directory, and
    the entry's real mtime [≥ 0] otherwise: the rows that [initial_scan]
    appends, which are the batches of the tree walker, and the rows that
    [scan] inserts for created names or updates for modified ones; the rows
    [scan] leaves as they were are the only others in the table. *)
Theorem writes_keep_sentinel fs :
  file_mtimes_nonneg fs →
  (∀ fuel path batches,
     __walktree fuel fs path = Ok batches →
     ∀ batch r, batch ∈ batches → r ∈ batch → sentinel_holds fs r)
  ∧ (∀ commit_interval fuel path d v d',
       initial_scan commit_interval fuel fs path d = Ok (v, d') →
       ∃ rows, table d' = table d ++ rows ∧ ∀ r, r ∈ rows → sentinel_holds fs r)
  ∧ (∀ path d res d',
       scan fs path d = Ok (res, d') →
       ∀ r, r ∈ table d' → r ∈ table d ∨ sentinel_holds fs r).
Proof.
  intros Hnonneg. split; [|split].
  - intros fuel path batches Hwalk batch r Hb Hr.
    by eapply written_sentinel, walktree_written.
  - intros ci fuel path d v d' [[_ ->]|(batches & Hwalk & _ & Htable & _)]%initial_scan_table.
    + exists []. split; [by rewrite app_nil_r|]. by intros r ?%elem_of_nil.
    + exists (concat batches). split; [done|].
      intros r (batch & Hr & Hb)%elem_of_concat.
      by eapply written_sentinel, walktree_written.
  - intros path d res d' Hscan r Hr.
    destruct (scan_rows _ _ _ _ _ Hscan r Hr) as [?|Hw]; [by left|].
    right. by apply written_sentinel.
Qed.

Lemma writes_keep_sentinel_witness :
  file_mtimes_nonneg fs_x_new
  ∧ (∀ r, r ∈ [Row "/x/y" "z.txt" 7; Row "/x" "y" (-1)] → sentinel_holds fs_x_new r)
  ∧ (∀ r, r ∈ [Row "/x" "y" (-1)] → sentinel_holds fs_x_new r).
Proof.
  assert (Hnonneg : file_mtimes_nonneg fs_x_new) by (apply fs_of_nonneg; reflexivity).
  destruct (writes_keep_sentinel fs_x_new Hnonneg) as (_ & Hinit & Hscan).
  split; [exact Hnonneg|]. split.
  - destruct (Hinit 50 3%nat "/x" empty_db PyNone
                (commit (Db [Row "/x/y" "z.txt" 7; Row "/x" "y" (-1)] [])))
      as (rows & Htable & Hrows); [vm_compute; reflexivity|].
    simpl in Htable. subst rows. exact Hrows.
  - intros r Hr.
    assert (Hrun : scan fs_x_new "/x" empty_db
                   = Ok (ScanResult {["y"]} ∅ ∅, commit (Db [Row "/x" "y" (-1)] [])))
      by (vm_compute; reflexivity).
    destruct (Hscan _ _ _ _ Hrun r Hr) as [Hold|Hs]; [|exact Hs].
    by apply elem_of_nil in Hold.
Defined.

(** ** The old snapshot, row by row *)

Lemma old_files_of_acc_lookup (fetched : list (string * Z))
    (acc : gmap string (string * Z)) (name : string) :
  foldl (λ old_files '(filename, mtime), <[filename := (filename, mtime)]> old_files)
        acc fetched !! name
  = match latest name fetched with
    | Some mtime => Some (name, mtime)
    | None => acc !! name
    end.
Proof.
  revert acc. induction fetched as [|[f m] fetched IH]; intros acc; simpl; [done|].
  rewrite IH. destruct (latest name fetched); [done|].
  destruct (decide (f = name)) as [->|Hne].
  - by rewrite lookup_insert_eq.
  - by rewrite lookup_insert_ne.
Qed.

Lemma old_files_of_lookup (fetched : list (string * Z)) (name : string) :
  old_files_of fetched !! name = (λ mtime, (name, mtime)) <$> latest name fetched.
Proof.
  unfold old_files_of. rewrite old_files_of_acc_lookup, lookup_empty.
  by destruct (latest name fetched).
Qed.

Lemma latest_app name (fetched fetched' : list (string * Z)) :
  latest name (fetched ++ fetched')
  = match latest name fetched' with
    | Some mtime => Some mtime
    | None => latest name fetched
    end.
Proof.
  induction fetched as [|[f m] fetched IH]; simpl.
  - by destruct (latest name fetched').
  - rewrite IH. by destruct (latest name fetched').
Qed.

Lemma latest_Some_elem name (fetched : list (string * Z)) mtime :
  latest name fetched = Some mtime → (name, mtime) ∈ fetched.
Proof.
  induction fetched as [|[f m] fetched IH]; simpl; [done|].
  destruct (latest name fetched) as [m'|].
  - intros [= <-]. right. by apply IH.
  - destruct (decide (f = name)) as [->|]; [|done]. intros [= <-]. by left.
Qed.

Lemma elem_of_select_where_path path d filename mtime :
  (filename, mtime) ∈ select_where_path path d ↔ Row path filename mtime ∈ table d.
Proof.
  unfold select_where_path. rewrite list_elem_of_fmap. split.
  - intros ([p f m] & [= -> ->] & [Hp Hr]%list_elem_of_filter). simpl in Hp.
    by subst p.
  - intros Hr. exists (Row path filename mtime). split; [done|].
    by apply list_elem_of_filter.
Qed.

(** The effect of each statement on what [scan] fetches for [path]. *)
Lemma latest_insert path name r d :
  latest name (select_where_path path (Sql.insert r d))
  = if bool_decide (r_path r = path ∧ r_filename r = name)
    then Some (r_mtime r)
    else latest name (select_where_path path d).
Proof.
  unfold select_where_path, Sql.insert, with_table. simpl.
  rewrite filter_app, fmap_app, latest_app.
  rewrite filter_cons, filter_nil. destruct (decide (r_path r = path)) as [Hp|Hp]; simpl.
  - destruct (decide (r_filename r = name)) as [Hf|Hf].
    + by rewrite bool_decide_eq_true_2.
    + rewrite bool_decide_eq_false_2; [done | tauto].
  - rewrite bool_decide_eq_false_2; [done | tauto].
Qed.

Lemma latest_update path name mtime p filename d :
  latest name (select_where_path path (update_mtime mtime p filename d))
  = if bool_decide (p = path ∧ filename = name)
    then match latest name (select_where_path path d) with
         | Some _ => Some mtime
         | None => None
         end
    else latest name (select_where_path path d).
Proof.
  unfold select_where_path, update_mtime, with_table. simpl.
  induction (table d) as [|[rp rf rm] rows IH]; [by case_bool_decide|].
  rewrite fmap_cons. simpl r_path. simpl r_filename.
  destruct (decide (rp = p ∧ rf = filename)) as [[Hrp Hrf]|Hkey].
  - subst rp rf. rewrite bool_decide_eq_true_2 by done.
    rewrite !filter_cons. simpl r_path.
    destruct (decide (p = path)) as [Hp|Hp].
    + subst p. rewrite !fmap_cons. simpl. rewrite IH. clear IH.
      destruct (decide (filename = name)) as [Hf|Hf].
      * subst name. rewrite bool_decide_eq_true_2 by done.
        by destruct (latest filename _).
      * rewrite bool_decide_eq_false_2 by tauto. done.
    + rewrite IH. done.
  - rewrite bool_decide_eq_false_2 by done.
    rewrite !filter_cons. simpl r_path.
    destruct (decide (rp = path)) as [Hp|Hp]; [|exact IH].
    subst rp. rewrite !fmap_cons. simpl. rewrite IH. clear IH.
    case_bool_decide as Hk; [|done]. destruct Hk as [Hp Hf]. subst p name.
    destruct (latest filename _); [done|].
    destruct (decide (rf = filename)); [tauto | done].
Qed.

Lemma latest_delete path name p filename d :
  latest name (select_where_path path (delete_where p filename d))
  = if bool_decide (p = path ∧ filename = name)
    then None
    else latest name (select_where_path path d).
Proof.
  unfold select_where_path, delete_where, with_table. simpl.
  induction (table d) as [|[rp rf rm] rows IH]; [by case_bool_decide|].
  rewrite (filter_cons (λ r, ¬ (r_path r = p ∧ r_filename r = filename))).
  simpl r_path. simpl r_filename.
  destruct (decide (¬ (rp = p ∧ rf = filename))) as [Hkeep|Hgone].
  - rewrite !filter_cons. simpl r_path.
    destruct (decide (rp = path)) as [Hp|Hp]; [|exact IH].
    subst rp. rewrite !fmap_cons. simpl. rewrite IH. clear IH.
    case_bool_decide as Hk; [|done]. destruct Hk as [Hp Hf]. subst p name.
    destruct (decide (rf = filename)); [tauto | done].
  - apply dec_stable in Hgone as [Hrp Hrf]. subst rp rf.
    rewrite IH. clear IH. rewrite filter_cons. simpl r_path.
    destruct (decide (p = path)) as [Hp|Hp]; [|done].
    subst p. rewrite fmap_cons. simpl.
    case_bool_decide as Hk; [done|].
    destruct (latest name _); [done|].
    destruct (decide (filename = name)); [tauto | done].
Qed.

(** ** [dirname] and [basename] of a reported path *)

Lemma rsplit_no_sep (p : string) :
  Path.has_sep p = false → Path.rsplit p = ("", p).
Proof.
  induction p as [|c p IH]; [done|]. simpl.
  intros [Hc Hp]%orb_false_elim. by rewrite (IH Hp), Hc.
Qed.

Lemma rsplit_head_has_sep (p : string) :
  Path.has_sep p = true → (Path.rsplit p).1 ≠ "".
Proof.
  induction p as [|c p IH]; [done|]. simpl.
  destruct (Path.has_sep p) eqn:Hp.
  - intros _. specialize (IH eq_refl). destruct (Path.rsplit p) as [[|h hs] t]; done.
  - rewrite orb_false_r. intros ->. by rewrite (rsplit_no_sep _ Hp).
Qed.

Lemma rstrip_sep_empty (head : string) :
  Path.rstrip_sep head = "" → Path.all_sep head = true.
Proof.
  induction head as [|c head IH]; [done|]. simpl.
  destruct (Path.rstrip_sep head); [|done].
  destruct (Ascii.eqb c "/"); [|done]. intros _. by apply IH.
Qed.

Lemma dirname_no_sep (p : string) :
  Path.has_sep p = false → Path.dirname p = "" ∧ Path.basename p = p.
Proof.
  intros Hp. unfold Path.dirname, Path.basename. by rewrite (rsplit_no_sep _ Hp).
Qed.

Lemma dirname_has_sep (p : string) :
  Path.has_sep p = true → Path.dirname p ≠ "".
Proof.
  intros Hp%rsplit_head_has_sep. unfold Path.dirname.
  destruct (Path.rsplit p) as [head tail]. simpl in *.
  destruct (String.eqb_spec head ""); [done|]. simpl.
  destruct (Path.all_sep head) eqn:Hall; [done|]. simpl.
  intros Hstrip%rstrip_sep_empty. congruence.
Qed.

Lemma app_sep_ne (path x : string) : path +:+ Path.sep +:+ x ≠ path.
Proof.
  induction path as [|c path IH]; [done|]. rewrite app_cons_s. by intros [= ?].
Qed.

(** ** The write loops, on what is fetched for [path] *)

Lemma latest_delete_deleted path name d p d' :
  delete_deleted path d p = Ok d' →
  latest name (select_where_path path d')
  = if bool_decide (p = name ∧ Path.has_sep p = false)
    then None
    else latest name (select_where_path path d).
Proof.
  unfold delete_deleted. intros [= <-]. rewrite latest_delete.
  destruct (Path.has_sep p) eqn:Hp.
  - pose proof (dirname_has_sep _ Hp) as Hdir.
    rewrite (bool_decide_eq_true_2 (String.length (Path.dirname p) ≠ 0%nat))
      by (by destruct (Path.dirname p)).
    rewrite !bool_decide_eq_false_2; [done | by intros [_ ?] |].
    intros [Hpath _]. by apply app_sep_ne in Hpath.
  - destruct (dirname_no_sep _ Hp) as [-> ->]. simpl.
    destruct (decide (p = name)) as [->|Hne].
    + by rewrite !bool_decide_eq_true_2.
    + rewrite !bool_decide_eq_false_2; [done | tauto..].
Qed.

Lemma insert_loop_latest path new_files xs d :
  well_keyed new_files → (∀ x, x ∈ xs → x ∈ dom new_files) →
  ∃ d1, for_each xs (insert_created path new_files) d = Ok d1
        ∧ ∀ name, latest name (select_where_path path d1)
                  = if bool_decide (name ∈ xs)
                    then snd <$> new_files !! name
                    else latest name (select_where_path path d).
Proof.
  intros Hnew. revert d. induction xs as [|x xs IH]; intros d Hxs; simpl.
  - exists d. split; [done|]. intros name.
    first [done | case_bool_decide as Hin; [by apply elem_of_nil in Hin | done]].
  - destruct (lookup_well_keyed new_files x Hnew) as [m Hx]; [apply Hxs; by left|].
    rewrite (insert_created_eq _ _ _ _ _ _ Hx). simpl.
    destruct (IH (Sql.insert (Row path x m) d)) as (d1 & Hd1 & Hlatest).
    { intros y Hy. apply Hxs. by right. }
    exists d1. split; [exact Hd1|]. intros name. rewrite Hlatest, latest_insert.
    simpl. destruct (decide (name ∈ xs)) as [Hin|Hin].
    + rewrite !bool_decide_eq_true_2; [done | by right | done].
    + rewrite (bool_decide_eq_false_2 (name ∈ xs)) by done.
      destruct (decide (x = name)) as [->|Hne].
      * rewrite !bool_decide_eq_true_2; [by rewrite Hx | by left | done].
      * rewrite !bool_decide_eq_false_2; [done | | tauto].
        intros [->|?]%elem_of_cons; done.
Qed.

Lemma update_loop_latest path new_files xs d :
  well_keyed new_files → (∀ x, x ∈ xs → x ∈ dom new_files) →
  ∃ d1, for_each xs (update_modified path new_files) d = Ok d1
        ∧ ∀ name, latest name (select_where_path path d1)
                  = if bool_decide (name ∈ xs)
                    then match latest name (select_where_path path d) with
                         | Some _ => snd <$> new_files !! name
                         | None => None
                         end
                    else latest name (select_where_path path d).
Proof.
  intros Hnew. revert d. induction xs as [|x xs IH]; intros d Hxs; simpl.
  - exists d. split; [done|]. intros name.
    first [done | case_bool_decide as Hin; [by apply elem_of_nil in Hin | done]].
  - destruct (lookup_well_keyed new_files x Hnew) as [m Hx]; [apply Hxs; by left|].
    rewrite (update_modified_eq _ _ _ _ _ _ Hx). simpl.
    destruct (IH (update_mtime m path x d)) as (d1 & Hd1 & Hlatest).
    { intros y Hy. apply Hxs. by right. }
    exists d1. split; [exact Hd1|]. intros name. rewrite Hlatest, latest_update.
    destruct (decide (x = name)) as [->|Hne].
    + rewrite (bool_decide_eq_true_2 (path = path ∧ name = name)) by done.
      rewrite (bool_decide_eq_true_2 (name ∈ name :: xs)) by (by left).
      rewrite Hx. simpl.
      destruct (latest name (select_where_path path d)); by case_bool_decide.
    + rewrite (bool_decide_eq_false_2 (path = path ∧ x = name)) by tauto.
      destruct (decide (name ∈ xs)) as [Hin|Hin].
      * rewrite !bool_decide_eq_true_2; [done | by right | done].
      * rewrite !bool_decide_eq_false_2; [done | | done].
        intros [->|?]%elem_of_cons; done.
Qed.

Lemma delete_loop_latest path xs d :
  ∃ d1, for_each xs (delete_deleted path) d = Ok d1
        ∧ ∀ name, latest name (select_where_path path d1)
                  = if bool_decide (name ∈ xs ∧ Path.has_sep name = false)
                    then None
                    else latest name (select_where_path path d).
Proof.
  revert d. induction xs as [|x xs IH]; intros d.
  - exists d. split; [done|]. intros name.
    first [done | case_bool_decide as Hin; [by destruct Hin as [?%elem_of_nil _] | done]].
  - change (for_each (x :: xs) (delete_deleted path) d)
      with (delete_deleted path d x ≫= for_each xs (delete_deleted path)).
    destruct (delete_deleted path d x) as [d'|] eqn:Hd'; [|done].
    change (Ok d' ≫= for_each xs (delete_deleted path))
      with (for_each xs (delete_deleted path) d').
    destruct (IH d') as (d1 & Hd1 & Hlatest).
    exists d1. split; [exact Hd1|]. intros name.
    rewrite Hlatest, (latest_delete_deleted _ _ _ _ _ Hd').
    destruct (decide (name ∈ xs ∧ Path.has_sep name = false)) as [[Hin Hs]|Hno].
    + rewrite !bool_decide_eq_true_2; [done | | done]. split; [by right | done].
    + rewrite (bool_decide_eq_false_2 _ Hno).
      destruct (decide (x = name ∧ Path.has_sep x = false)) as [[-> Hs]|Hx].
      * rewrite !bool_decide_eq_true_2; [done | | done]. split; [by left | done].
      * rewrite !bool_decide_eq_false_2; [done | | done].
        intros [[->|?]%elem_of_cons ?]; tauto.
Qed.

(** ** Scanning an unchanged directory again *)

Lemma scanhelper_same d path files :
  well_keyed files → __scanhelper d path files files = Ok (ScanResult ∅ ∅ ∅).
Proof.
  intros Hwk.
  destruct (scanhelper_spec d path _ _ Hwk Hwk) as (tree & changed & -> & Htree & _ & Hch).
  rewrite difference_diag_L, elements_empty in Htree. simpl in Htree.
  injection Htree as <-. f_equal. rewrite difference_diag_L, union_empty_l_L.
  f_equal. apply set_eq. intros name. rewrite Hch. split; [|by intros ?%elem_of_empty].
  intros (mo & mn & Ho & Hn & Hne). congruence.
Qed.

(** After [scan], what the table holds for [path] is the listing, when no
    [%] occurs in [path] or in a name stored for [path], those names are
    not empty, and no stored name holds a separator. *)
Lemma snapshot_after_scan fs path d entries res d1 :
  has_percent path = false →
  (∀ r, r ∈ table d → Path.has_sep (r_filename r) = false) →
  (∀ r, r ∈ table d → r_path r = path →
        r_filename r ≠ "" ∧ has_percent (r_filename r) = false) →
  __listdir fs path = Ok entries →
  scan fs path d = Ok (res, d1) →
  old_files_of (select_where_path path d1) = new_files_of entries.
Proof.
  intros Hpath Hrows Hplain Hlist. unfold scan. rewrite Hlist. simpl.
  pose proof (old_files_of_well_keyed (select_where_path path d)) as Hold.
  pose proof (new_files_of_well_keyed entries) as Hnew.
  set (old_files := old_files_of (select_where_path path d)) in *.
  set (new_files := new_files_of entries) in *.
  destruct (scanhelper_spec d path _ _ Hold Hnew)
    as (tree & changed & -> & _ & Hcasc & Hch).
  simpl.
  assert (Hrow : ∀ name, name ∈ dom old_files →
            ∃ mtime, Row path name mtime ∈ table d).
  { intros name [v Hv]%elem_of_dom. unfold old_files in Hv.
    rewrite old_files_of_lookup in Hv.
    destruct (latest name (select_where_path path d)) as [m|] eqn:Hm; [|done].
    exists m. by apply elem_of_select_where_path, latest_Some_elem. }
  assert (Hsepfree : ∀ name, name ∈ dom old_files → Path.has_sep name = false).
  { intros name [m Hm]%Hrow. exact (Hrows _ Hm). }
  assert (Htreesep : ∀ p, p ∈ tree → Path.has_sep p = true).
  { intros p Hp%Hcasc. revert Hp. apply cascaded_has_sep; [done..|].
    intros name filename _ Hname. pose proof (Hold _ _ Hname) as Hkey.
    simpl in Hkey. subst filename.
    destruct (Hrow name) as [m Hm]; [apply elem_of_dom; eauto|].
    exact (Hplain _ Hm eq_refl). }
  destruct (insert_loop_latest path new_files
              (elements (dom new_files ∖ dom old_files)) d Hnew)
    as (da & -> & Hins).
  { intros x Hx%elem_of_elements. set_solver. }
  simpl.
  destruct (update_loop_latest path new_files (elements changed) (commit da) Hnew)
    as (d_upd & -> & Hupd).
  { intros x (mo & mn & _ & Hn & _)%elem_of_elements%Hch. apply elem_of_dom. eauto. }
  simpl.
  destruct (delete_loop_latest path
              (elements ((dom old_files ∖ dom new_files) ∪ tree)) (commit d_upd))
    as (dc & -> & Hdel).
  simpl. intros [= _ <-]. apply map_eq. intros name.
  rewrite old_files_of_lookup.
  change (select_where_path path (commit dc)) with (select_where_path path dc).
  rewrite Hdel.
  change (select_where_path path (commit d_upd)) with (select_where_path path d_upd).
  rewrite Hupd.
  change (select_where_path path (commit da)) with (select_where_path path da).
  rewrite Hins.
  assert (Hlook : old_files !! name
                  = (λ mtime, (name, mtime)) <$> latest name (select_where_path path d))
    by apply old_files_of_lookup.
  destruct (decide (name ∈ dom new_files)) as [Hn|Hn];
    destruct (decide (name ∈ dom old_files)) as [Ho|Ho].
  - (* in both snapshots *)
    destruct (lookup_well_keyed _ _ Hnew Hn) as [mn Hmn].
    destruct (lookup_well_keyed _ _ Hold Ho) as [mo Hmo].
    rewrite Hmo in Hlook.
    destruct (latest name (select_where_path path d)) as [m|] eqn:Hm; [|done].
    injection Hlook as <-.
    rewrite bool_decide_eq_false_2.
    2: { intros [[[? ?]%elem_of_difference|?%Htreesep]%elem_of_elements%elem_of_union Hs];
         [done | congruence]. }
    rewrite (bool_decide_eq_false_2 (name ∈ elements (dom new_files ∖ dom old_files))).
    2: { intros [? ?]%elem_of_elements%elem_of_difference. done. }
    rewrite Hmn. simpl. case_bool_decide as Hc.
    + done.
    + destruct (decide (mo = mn)) as [->|Hne]; [done|]. exfalso. apply Hc.
      apply elem_of_elements, Hch. by exists mo, mn.
  - (* created *)
    destruct (lookup_well_keyed _ _ Hnew Hn) as [mn Hmn].
    rewrite bool_decide_eq_false_2.
    2: { intros [[[? ?]%elem_of_difference|?%Htreesep]%elem_of_elements%elem_of_union Hs];
         [done | congruence]. }
    rewrite (bool_decide_eq_true_2 (name ∈ elements (dom new_files ∖ dom old_files))).
    2: { apply elem_of_elements, elem_of_difference. done. }
    rewrite Hmn. simpl. by case_bool_decide.
  - (* deleted *)
    rewrite bool_decide_eq_true_2.
    2: { split; [|by apply Hsepfree]. apply elem_of_elements, elem_of_union_l.
         by apply elem_of_difference. }
    apply not_elem_of_dom in Hn. by rewrite Hn.
  - (* in neither *)
    apply not_elem_of_dom in Hn, Ho. rewrite Ho in Hlook.
    destruct (latest name (select_where_path path d)) as [m|] eqn:Hm; [done|].
    rewrite (bool_decide_eq_false_2 (name ∈ elements (dom new_files ∖ dom old_files))).
    2: { intros [?%elem_of_dom ?]%elem_of_elements%elem_of_difference.
         rewrite Hn in *. by destruct H. }
    rewrite Hn. simpl. by repeat case_bool_decide.
Qed.

Lemma scan_committed fs path d res d1 :
  scan fs path d = Ok (res, d1) → commit d1 = d1.
Proof.
  unfold scan. destruct (__listdir fs path) as [entries|] eqn:Hlist; [|done].
  destruct (scan_steps fs path d _ Hlist)
    as (res' & da & d_upd & dc & _ & _ & _ & _ & Hscan).
  unfold scan in Hscan. rewrite Hlist in Hscan. rewrite Hscan.
  by intros [= _ <-].
Qed.

(** The round trip of [scan], away from the wildcard: when no [%] occurs
    in [path] or in a name stored for [path], those names are not empty, and
    no stored name holds a separator, scanning the same directory again
    without a change in between returns three empty sets and leaves the
    connection as it is. *)
Lemma rescan_unchanged fs path d res d1 :
  has_percent path = false →
  (∀ r, r ∈ table d → Path.has_sep (r_filename r) = false) →
  (∀ r, r ∈ table d → r_path r = path →
        r_filename r ≠ "" ∧ has_percent (r_filename r) = false) →
  scan fs path d = Ok (res, d1) →
  scan fs path d1 = Ok (ScanResult ∅ ∅ ∅, d1).
Proof.
  intros Hpath Hrows Hplain Hscan.
  pose proof (scan_committed _ _ _ _ _ Hscan) as Hcommit.
  destruct (__listdir fs path) as [entries|] eqn:Hlist;
    [|by unfold scan in Hscan; rewrite Hlist in Hscan].
  pose proof (snapshot_after_scan _ _ _ _ _ _ Hpath Hrows Hplain Hlist Hscan) as Hsnap.
  unfold scan. rewrite Hlist. simpl. rewrite Hsnap.
  rewrite (scanhelper_same _ _ _ (new_files_of_well_keyed entries)). simpl.
  rewrite elements_empty. simpl. by rewrite !Hcommit.
Qed.

(** C5, on the code: [/d%%/a] was deleted before the first of two scans of
    [/d%%], and nothing changes between them. The pattern [/d%%/a%] of the
    cascade selects the row of [/d/a/f], whose relative path comes out as
    [f]; the first scan therefore deletes the row of the unchanged file
    [/d%%/f], and the second scan reports [f] as created. *)
Theorem rescan_reports_created :
  scan_twice_percent
  = Ok (commit (Db [Row "/d/a" "f" 5; Row "/d" "a" (-1);
                    Row "/d%%" "a" (-1); Row "/d%%" "f" 7] []),
        ScanResult ∅ {["a"; "f"]} ∅,
        commit (Db [Row "/d/a" "f" 5; Row "/d" "a" (-1)] []),
        ScanResult {["f"]} ∅ ∅).
Proof. vm_compute. reflexivity. Qed.

(** ** Fuel *)

Lemma walktree_loop_mono (recurse recurse' : string → result (list (list row)))
    entries rows batches :
  (∀ p b, recurse p = Ok b → recurse' p = Ok b) →
  __walktree_loop recurse entries rows = Ok batches →
  __walktree_loop recurse' entries rows = Ok batches.
Proof.
  intros Hrec. revert rows batches.
  induction entries as [|[[[p f] m] b] entries IH]; intros rows batches; simpl; [done|].
  destruct b; [|apply IH].
  destruct (recurse (Path.join p f)) as [childrows|] eqn:Hchild; [|done].
  rewrite (Hrec _ _ Hchild). simpl.
  destruct (__walktree_loop recurse entries _) as [yielded|] eqn:Hloop; [|done].
  by rewrite (IH _ _ Hloop).
Qed.

Lemma walktree_mono fuel fs path batches :
  __walktree fuel fs path = Ok batches → __walktree (S fuel) fs path = Ok batches.
Proof.
  revert path batches. induction fuel as [|fuel IH]; intros path batches; [done|].
  change (__walktree (S (S fuel)) fs path)
    with (__listdir fs path ≫= λ entries, __walktree_loop (__walktree (S fuel) fs) entries []).
  change (__walktree (S fuel) fs path)
    with (__listdir fs path ≫= λ entries, __walktree_loop (__walktree fuel fs) entries []).
  destruct (__listdir fs path) as [entries|]; [|done]. simpl.
  apply walktree_loop_mono. exact IH.
Qed.

Lemma walktree_more_fuel fuel extra fs path batches :
  __walktree fuel fs path = Ok batches →
  __walktree (fuel + extra) fs path = Ok batches.
Proof.
  intros Hwalk. induction extra as [|extra IH].
  - by rewrite Nat.add_0_r.
  - rewrite Nat.add_succ_r. by apply walktree_mono.
Qed.

Lemma scan_tree_loop_mono
    (recurse recurse' : string → db → result (list (string * scan_result) * db))
    fs path filenames d out :
  (∀ p d r, recurse p d = Ok r → recurse' p d = Ok r) →
  scan_tree_loop recurse fs path filenames d = Ok out →
  scan_tree_loop recurse' fs path filenames d = Ok out.
Proof.
  intros Hrec. revert d out.
  induction filenames as [|f filenames IH]; intros d out; simpl; [done|].
  destruct (os_stat fs (Path.join path f)) as [[m []]|]; [|apply IH..].
  destruct (recurse (Path.join path f) d) as [[sub d1]|] eqn:Hsub; [|done].
  rewrite (Hrec _ _ _ Hsub). simpl.
  destruct (scan_tree_loop recurse fs path filenames d1) as [[rest d2]|] eqn:Hloop;
    [|done].
  by rewrite (IH _ _ Hloop).
Qed.

Lemma scan_tree_S fuel fs path d :
  scan_tree (S fuel) fs path d
  = ('(res, d) ← scan fs path d;
     filenames ← from_option Ok (Raise OSError) (os_listdir fs path);
     '(yielded, d) ← scan_tree_loop (scan_tree fuel fs) fs path filenames d;
     Ok ((path, prepend_result path res) :: yielded, d)).
Proof. reflexivity. Qed.

Lemma scan_tree_mono fuel fs path d out :
  scan_tree fuel fs path d = Ok out → scan_tree (S fuel) fs path d = Ok out.
Proof.
  revert path d out. induction fuel as [|fuel IH]; intros path d out; [done|].
  rewrite !scan_tree_S.
  destruct (scan fs path d) as [[res d1]|]; [|done]. simpl.
  destruct (os_listdir fs path) as [filenames|]; [|done]. simpl.
  destruct (scan_tree_loop (scan_tree fuel fs) fs path filenames d1)
    as [[yielded d2]|] eqn:Hloop; [|done].
  simpl. intros [= <-].
  by rewrite (scan_tree_loop_mono _ (scan_tree (S fuel) fs) _ _ _ _ _ IH Hloop).
Qed.

Lemma scan_tree_more_fuel fuel extra fs path d out :
  scan_tree fuel fs path d = Ok out → scan_tree (fuel + extra) fs path d = Ok out.
Proof.
  intros Htree. induction extra as [|extra IH].
  - by rewrite Nat.add_0_r.
  - rewrite Nat.add_succ_r. by apply scan_tree_mono.
Qed.

Lemma initial_scan_more_fuel commit_interval fuel extra fs path d out :
  initial_scan commit_interval fuel fs path d = Ok out →
  initial_scan commit_interval (fuel + extra) fs path d = Ok out.
Proof.
  unfold initial_scan. case_bool_decide; [done|].
  destruct (__walktree fuel fs path) as [batches|] eqn:Hwalk; [|done].
  by rewrite (walktree_more_fuel _ extra _ _ _ Hwalk).
Qed.

(** ** The tree scan *)

(** After the initial scan of the empty directory [/x], which stores
    nothing, and the creation of [/x/y/z.txt], one [scan_tree("/x")] yields
    [y] as created under [/x] and then [z.txt] of [y] as created under
    [/x/y] (each with the scanned path in front). Fuel 1 and 2 suffice, and
    more changes nothing. *)
Lemma scan_tree_new_subtree_values commit_interval extra :
  initial_scan commit_interval (1 + extra) fs_x_empty "/x" empty_db
  = Ok (PyNone, empty_db)
  ∧ count_where_path "/x/y" empty_db = 0
  ∧ scan_tree (2 + extra) fs_x_new "/x" empty_db
    = Ok ([("/x", ScanResult {["/x/y"]} ∅ ∅);
           ("/x/y", ScanResult {["/x/y/z.txt"]} ∅ ∅)],
          commit (Db [Row "/x" "y" (-1); Row "/x/y" "z.txt" 7] [])).
Proof.
  split; [|split; [reflexivity|]].
  - apply initial_scan_more_fuel. vm_compute. reflexivity.
  - apply scan_tree_more_fuel. vm_compute. reflexivity.
Qed.

(** * Further properties *)

(** ** The change detector on equal and on mis-keyed dictionaries *)

(** X1. Comparing a snapshot with itself gives three empty sets, whatever
    the table holds: no entry of it is created, deleted or modified, and no
    cascade is run. *)
Theorem diff_of_equal_snapshots d path files :
  well_keyed files → __scanhelper d path files files = Ok (ScanResult ∅ ∅ ∅).
Proof. apply scanhelper_same. Qed.

Lemma diff_of_equal_snapshots_witness :
  well_keyed old_x ∧ __scanhelper db_x "/x" old_x old_x = Ok (ScanResult ∅ ∅ ∅).
Proof.
  assert (Hold : well_keyed old_x)
    by (apply well_keyed_decide; vm_compute; reflexivity).
  split; [exact Hold|]. exact (diff_of_equal_snapshots db_x "/x" old_x Hold).
Defined.

Lemma modified_step_outcome old_files new_files acc x :
  (∃ acc', modified_step old_files new_files acc x = Ok acc')
  ∨ modified_step old_files new_files acc x = Raise KeyError.
Proof.
  unfold modified_step, getitem. destruct (old_files !! x) as [[f mo]|]; [|by right].
  simpl. destruct (new_files !! f) as [[f' mn]|]; [|by right]. simpl.
  left. case_bool_decide; eauto.
Qed.

Lemma for_each_raises {A S} (body : S → A → result S) (e : exn) xs x s :
  (∀ s y, (∃ s', body s y = Ok s') ∨ body s y = Raise e) →
  x ∈ xs → (∀ s, body s x = Raise e) →
  for_each xs body s = Raise e.
Proof.
  intros Hbody Hx Hraise. revert s.
  induction xs as [|y xs IH]; intros s; [by apply elem_of_nil in Hx|].
  simpl. destruct (Hbody s y) as [[s' Hs]|Hs]; rewrite Hs; [|done]. simpl.
  apply elem_of_cons in Hx as [Hx|Hx]; [|by apply IH].
  subst y. rewrite Hraise in Hs. discriminate.
Qed.

(** X2. The dictionaries must be keyed by the names in their tuples: when
    a name of both dictionaries carries, in [old_files], a tuple whose name
    [new_files] lacks, [__scanhelper] raises [KeyError] in step 3. *)
Theorem scanhelper_miskeyed_raises d path old_files new_files k tuple_name old_mtime :
  k ∈ dom new_files →
  old_files !! k = Some (tuple_name, old_mtime) →
  new_files !! tuple_name = None →
  __scanhelper d path old_files new_files = Raise KeyError.
Proof.
  intros Hk Hold Hnew. unfold __scanhelper. rewrite possibly_modified_both.
  rewrite (for_each_raises (modified_step old_files new_files) KeyError _ k); [done| | |].
  - intros s y. apply modified_step_outcome.
  - apply elem_of_elements, elem_of_intersection. split; [done|].
    apply elem_of_dom. eauto.
  - intros s. unfold modified_step, getitem. rewrite Hold. simpl. by rewrite Hnew.
Qed.

Lemma scanhelper_miskeyed_raises_witness :
  __scanhelper db_x "/x" miskeyed_old miskeyed_new = Raise KeyError.
Proof.
  apply (scanhelper_miskeyed_raises db_x "/x" miskeyed_old miskeyed_new "a" "b" 1).
  - vm_compute. reflexivity.
  - reflexivity.
  - reflexivity.
Defined.

(** ** What [scan] does to the rows of other directories *)

Lemma delete_deleted_target path d p :
  delete_deleted path d p
  = Ok (delete_where (delete_target path p).1 (delete_target path p).2 d).
Proof. reflexivity. Qed.

Lemma elem_of_delete_where p f d r :
  r ∈ table (delete_where p f d) ↔ r ∈ table d ∧ row_key r ≠ (p, f).
Proof.
  unfold delete_where, with_table, row_key. simpl. rewrite list_elem_of_filter.
  split; intros [H1 H2]; split; try done.
  - intros [= ? ?]. by apply H1.
  - intros [? ?]. apply H2. by f_equal.
Qed.

Lemma delete_loop_exact path xs d :
  ∃ d1, for_each xs (delete_deleted path) d = Ok d1
        ∧ ∀ r, r ∈ table d1 ↔
               r ∈ table d ∧ ∀ p, p ∈ xs → row_key r ≠ delete_target path p.
Proof.
  revert d. induction xs as [|x xs IH]; intros d.
  - exists d. split; [done|]. intros r. split; [|by intros [? _]].
    intros Hr. split; [done|]. by intros p ?%elem_of_nil.
  - change (for_each (x :: xs) (delete_deleted path) d)
      with (delete_deleted path d x ≫= for_each xs (delete_deleted path)).
    rewrite delete_deleted_target.
    change (Ok ?d' ≫= for_each xs (delete_deleted path))
      with (for_each xs (delete_deleted path) d').
    destruct (IH (delete_where (delete_target path x).1 (delete_target path x).2 d))
      as (d1 & Hd1 & Hrows).
    exists d1. split; [exact Hd1|]. intros r. rewrite Hrows, elem_of_delete_where.
    rewrite <- surjective_pairing. split.
    + intros [[Hr Hx] Hxs]. split; [done|].
      intros p [->|Hp]%elem_of_cons; [done | by apply Hxs].
    + intros [Hr Hall]. split; [split; [done|]|].
      * apply Hall. by left.
      * intros p Hp. apply Hall. by right.
Qed.

Lemma insert_loop_elsewhere path new_files xs d d1 r :
  for_each xs (insert_created path new_files) d = Ok d1 →
  r_path r ≠ path → (r ∈ table d1 ↔ r ∈ table d).
Proof.
  revert d. induction xs as [|x xs IH]; intros d; [by intros [= <-]|].
  change (for_each (x :: xs) (insert_created path new_files) d)
    with (insert_created path new_files d x
          ≫= for_each xs (insert_created path new_files)).
  destruct (insert_created path new_files d x) as [d'|] eqn:Hstep; [|done].
  change (Ok d' ≫= for_each xs (insert_created path new_files))
    with (for_each xs (insert_created path new_files) d').
  intros Hd1 Hr. rewrite (IH _ Hd1 Hr).
  unfold insert_created, getitem in Hstep.
  destruct (new_files !! x) as [[f m]|]; [|done]. injection Hstep as <-.
  unfold Sql.insert, with_table. simpl.
  rewrite elem_of_app, list_elem_of_singleton. split; [|by left].
  intros [?| ->]; [done|]. by contradict Hr.
Qed.

Lemma update_mtime_elsewhere mtime path filename d r :
  r_path r ≠ path → (r ∈ table (update_mtime mtime path filename d) ↔ r ∈ table d).
Proof.
  intros Hr. unfold update_mtime, with_table. simpl. rewrite list_elem_of_fmap.
  split.
  - intros (r0 & -> & Hr0). case_bool_decide as Hkey; [|done].
    simpl in Hr. destruct Hkey as [Hp _]. by contradict Hr.
  - intros Hin. exists r. split; [|done].
    rewrite bool_decide_eq_false_2; [done|]. by intros [? _].
Qed.

Lemma update_loop_elsewhere path new_files xs d d1 r :
  for_each xs (update_modified path new_files) d = Ok d1 →
  r_path r ≠ path → (r ∈ table d1 ↔ r ∈ table d).
Proof.
  revert d. induction xs as [|x xs IH]; intros d; [by intros [= <-]|].
  change (for_each (x :: xs) (update_modified path new_files) d)
    with (update_modified path new_files d x
          ≫= for_each xs (update_modified path new_files)).
  destruct (update_modified path new_files d x) as [d'|] eqn:Hstep; [|done].
  change (Ok d' ≫= for_each xs (update_modified path new_files))
    with (for_each xs (update_modified path new_files) d').
  intros Hd1 Hr. rewrite (IH _ Hd1 Hr).
  unfold update_modified, getitem in Hstep.
  destruct (new_files !! x) as [[f m]|]; [|done]. injection Hstep as <-.
  by apply update_mtime_elsewhere.
Qed.

(** The rows of other directories after [scan]. *)
Lemma scan_elsewhere fs path d entries :
  __listdir fs path = Ok entries →
  ∃ res d',
    scan fs path d = Ok (res, d')
    ∧ ∀ r, r_path r ≠ path →
        (r ∈ table d' ↔
         r ∈ table d ∧ ∀ p, p ∈ deleted res → row_key r ≠ delete_target path p).
Proof.
  intros Hlist.
  destruct (scan_steps fs path d _ Hlist)
    as (res & d1 & d2 & d3 & _ & Hd1 & Hd2 & Hd3 & Hscan).
  exists res, (commit d3). split; [exact Hscan|]. intros r Hr.
  destruct (delete_loop_exact path (elements (deleted res)) (commit d2))
    as (d3' & Hd3' & Hdel).
  rewrite Hd3 in Hd3'. injection Hd3' as <-.
  change (table (commit d3)) with (table d3). rewrite Hdel.
  change (table (commit d2)) with (table d2).
  rewrite (update_loop_elsewhere _ _ _ _ _ r Hd2 Hr).
  change (table (commit d1)) with (table d1).
  rewrite (insert_loop_elsewhere _ _ _ _ _ r Hd1 Hr).
  split; intros [Hin Hall]; (split; [done|]); intros p Hp; apply Hall;
    by apply elem_of_elements.
Qed.

(** X3. [scan(path)] never adds or changes a row of another directory: a
    row with another [path] column is in the table afterwards exactly when
    it was there before and no name reported as deleted points at it
    through [dirname] and [basename]. *)
Theorem scan_leaves_other_directories fs path d names :
  os_listdir fs path = Some names →
  ∃ res d',
    scan fs path d = Ok (res, d')
    ∧ ∀ r, r_path r ≠ path →
        (r ∈ table d' ↔
         r ∈ table d ∧ ∀ p, p ∈ deleted res → row_key r ≠ delete_target path p).
Proof.
  intros Hnames. apply scan_elsewhere with (__listdir_loop fs path names).
  unfold __listdir. by rewrite Hnames.
Qed.

Lemma scan_leaves_other_directories_witness :
  ∃ res d',
    scan fs_x_later "/x" db_siblings = Ok (res, d')
    ∧ ∀ r, r_path r ≠ "/x" →
        (r ∈ table d' ↔
         r ∈ table db_siblings
         ∧ ∀ p, p ∈ deleted res → row_key r ≠ delete_target "/x" p).
Proof.
  exact (scan_leaves_other_directories fs_x_later "/x" db_siblings ["c"] eq_refl).
Defined.

(** ** From the reported relative path back to the row *)

Lemma rsplit_app_sep (a child : string) :
  Path.has_sep child = false →
  Path.rsplit (a +:+ Path.sep +:+ child) = (a +:+ Path.sep, child).
Proof.
  intros Hchild. induction a as [|c a IH].
  - change ("" +:+ Path.sep +:+ child) with (String "/" child). simpl.
    by rewrite (rsplit_no_sep _ Hchild).
  - rewrite !app_cons_s. simpl. rewrite IH. by destruct a.
Qed.

Lemma rstrip_sep_app_sep (a : string) :
  Path.endswith_sep a = false → Path.rstrip_sep (a +:+ Path.sep) = a.
Proof.
  induction a as [|c a IH]; [done|]. intros Hend. rewrite app_cons_s. simpl.
  destruct a as [|c' a].
  - simpl in *. by rewrite Hend.
  - rewrite (IH Hend). done.
Qed.

Lemma all_sep_app_sep (a : string) :
  a ≠ "" → Path.endswith_sep a = false → Path.all_sep (a +:+ Path.sep) = false.
Proof.
  induction a as [|c a IH]; [done|]. intros _ Hend. rewrite app_cons_s. simpl.
  destruct a as [|c' a].
  - simpl in *. by rewrite Hend.
  - rewrite IH; [apply andb_false_r | done | done].
Qed.

Lemma dirname_basename_app (a child : string) :
  a ≠ "" → Path.endswith_sep a = false → Path.has_sep child = false →
  Path.dirname (a +:+ Path.sep +:+ child) = a
  ∧ Path.basename (a +:+ Path.sep +:+ child) = child.
Proof.
  intros Hne Hend Hchild. unfold Path.dirname, Path.basename.
  rewrite (rsplit_app_sep _ _ Hchild). simpl. split; [|done].
  rewrite (all_sep_app_sep _ Hne Hend).
  assert (String.eqb (a +:+ Path.sep) "" = false) as -> by (by destruct a).
  simpl. by apply rstrip_sep_app_sep.
Qed.

(** The relative path of a row stored below [path], and the row the delete
    loop makes of it. *)
Lemma relative_to_below (path rel : string) (r : row) :
  r_path r = path +:+ Path.sep +:+ rel →
  rel ≠ "" → Path.endswith_sep rel = false → Path.has_sep (r_filename r) = false →
  relative_to path r = rel +:+ Path.sep +:+ r_filename r
  ∧ delete_target path (relative_to path r) = row_key r.
Proof.
  intros Hpath Hne Hend Hname.
  assert (relative_to path r = rel +:+ Path.sep +:+ r_filename r) as Hrel.
  { unfold relative_to, Path.join.
    rewrite Hpath, (startswith_sep_no_sep _ Hname), app_sep_not_empty.
    assert (Path.endswith_sep (path +:+ Path.sep +:+ rel) = false) as ->.
    { change (Path.sep +:+ rel) with (String "/" rel). rewrite endswith_sep_app.
      by destruct rel. }
    simpl orb. cbv iota.
    replace ((path +:+ Path.sep +:+ rel) +:+ Path.sep +:+ r_filename r)
      with ((path +:+ Path.sep) +:+ rel +:+ Path.sep +:+ r_filename r)
      by (by rewrite !app_assoc_s).
    rewrite <- length_app_sep. apply slice_from_app. }
  split; [exact Hrel|]. rewrite Hrel. unfold delete_target, row_key.
  destruct (dirname_basename_app rel (r_filename r) Hne Hend Hname) as [-> ->].
  rewrite bool_decide_eq_true_2 by (by destruct rel). by rewrite Hpath.
Qed.

Lemma new_files_of_unlisted fs path names name :
  name ∉ names → new_files_of (__listdir_loop fs path names) !! name = None.
Proof.
  intros Hname. destruct (new_files_of _ !! name) as [v|] eqn:Hv; [|done].
  apply new_files_of_lookup in Hv as (p & m & b & Hin & _).
  by apply elem_of_listdir_loop in Hin as (_ & ? & _).
Qed.

(** X4. When a directory [name] that the table records with mtime [-1] is
    no longer listed, [scan(path)] reports every row stored below it and
    deletes it from the table: the relative path that step 4 builds for the
    row leads the delete loop, through [dirname] and [basename], back to the
    row's own [path] and [filename]. The directory path of the row must not
    end in a separator, and its name must hold none. *)
Theorem scan_purges_deleted_subtree fs path d names name rest r :
  os_listdir fs path = Some names →
  old_files_of (select_where_path path d) !! name = Some (name, -1) →
  name ∉ names →
  r ∈ table d →
  r_path r = path +:+ Path.sep +:+ name +:+ rest →
  name ≠ "" → Path.endswith_sep (name +:+ rest) = false →
  Path.has_sep (r_filename r) = false →
  ∃ res d',
    scan fs path d = Ok (res, d')
    ∧ (name +:+ rest) +:+ Path.sep +:+ r_filename r ∈ deleted res
    ∧ ∀ r', r' ∈ table d' → row_key r' ≠ row_key r.
Proof.
  intros Hnames Hold Hgone Hr Hpath Hne Hend Hname.
  assert (Hlist : __listdir fs path = Ok (__listdir_loop fs path names))
    by (unfold __listdir; by rewrite Hnames).
  assert (Hrel : name +:+ rest ≠ "") by (by destruct name).
  destruct (relative_to_below path (name +:+ rest) r Hpath Hrel Hend Hname)
    as [Hrelative Htarget].
  destruct (scan_elsewhere fs path d _ Hlist) as (res & d' & Hscan & Hrows).
  exists res, d'. split; [exact Hscan|].
  assert (Hreported : relative_to path r ∈ deleted res).
  { destruct (scan_steps fs path d _ Hlist) as (res' & _ & _ & d3 & Hres & _ & _ & _ & Hscan').
    rewrite Hscan in Hscan'. injection Hscan' as -> _.
    destruct (scanhelper_spec d path _ _
                (old_files_of_well_keyed (select_where_path path d))
                (new_files_of_well_keyed (__listdir_loop fs path names)))
      as (tree & changed & Hres' & _ & Htree & _).
    rewrite Hres in Hres'. injection Hres' as ->. simpl.
    apply elem_of_union_r, Htree. exists name, name, r.
    split; [|split; [done|split; [done|split; [|done]]]].
    - apply elem_of_elements, elem_of_difference. split.
      + apply elem_of_dom. eauto.
      + apply not_elem_of_dom. by apply new_files_of_unlisted.
    - rewrite Hpath.
      replace (path +:+ Path.sep +:+ name +:+ rest)
        with ((path +:+ Path.sep +:+ name) +:+ rest) by (by rewrite !app_assoc_s).
      apply like_prefix. }
  split; [by rewrite <- Hrelative|].
  intros r' Hr' Hkey.
  assert (Hother : r_path r' ≠ path).
  { injection Hkey as Hp _. rewrite Hp, Hpath. apply app_sep_ne. }
  apply (Hrows r' Hother) in Hr' as [_ Hall].
  apply (Hall _ Hreported). by rewrite Htarget.
Qed.

Lemma scan_purges_deleted_subtree_witness :
  ∃ res d',
    scan fs_x_later "/x" db_x = Ok (res, d')
    ∧ "a/b" ∈ deleted res
    ∧ ∀ r', r' ∈ table d' → row_key r' ≠ row_key (Row "/x/a" "b" 5).
Proof.
  apply (scan_purges_deleted_subtree fs_x_later "/x" db_x ["c"] "a" "" (Row "/x/a" "b" 5)).
  - reflexivity.
  - vm_compute. reflexivity.
  - intros [Hc|Hc%elem_of_nil]%elem_of_cons; [discriminate | done].
  - apply list_elem_of_here.
  - reflexivity.
  - discriminate.
  - reflexivity.
  - reflexivity.
Defined.

(** ** One row per key *)

Lemma latest_None_not_elem name (fetched : list (string * Z)) mtime :
  latest name fetched = None → (name, mtime) ∉ fetched.
Proof.
  induction fetched as [|[f m] fetched IH]; simpl; [by intros _ ?%elem_of_nil|].
  destruct (latest name fetched); [done|].
  destruct (decide (f = name)) as [->|Hne]; [done|]. intros _.
  intros [[= ? ?]|?]%elem_of_cons; [done | by apply IH].
Qed.

(** A name that the old snapshot lacks has no row for [path]. *)
Lemma no_row_of_new_name path d name r :
  name ∉ dom (old_files_of (select_where_path path d)) →
  r ∈ table d → row_key r ≠ (path, name).
Proof.
  intros Hname%not_elem_of_dom Hr Hkey. rewrite old_files_of_lookup in Hname.
  destruct (latest name (select_where_path path d)) eqn:Hlatest; [done|].
  apply (latest_None_not_elem _ _ (r_mtime r) Hlatest).
  apply elem_of_select_where_path. destruct r as [p f m].
  injection Hkey as -> ->. done.
Qed.

Lemma insert_loop_unique path new_files xs d :
  well_keyed new_files → (∀ x, x ∈ xs → x ∈ dom new_files) →
  NoDup xs → (∀ x r, x ∈ xs → r ∈ table d → row_key r ≠ (path, x)) →
  unique_keys (table d) →
  ∃ d1, for_each xs (insert_created path new_files) d = Ok d1
        ∧ unique_keys (table d1).
Proof.
  intros Hnew. revert d.
  induction xs as [|x xs IH]; intros d Hxs Hnodup Hfresh Hunique; [by exists d|].
  destruct (lookup_well_keyed new_files x Hnew) as [m Hx]; [apply Hxs; by left|].
  change (for_each (x :: xs) (insert_created path new_files) d)
    with (insert_created path new_files d x
          ≫= for_each xs (insert_created path new_files)).
  rewrite (insert_created_eq _ _ _ _ _ _ Hx).
  change (Ok ?d' ≫= for_each xs (insert_created path new_files))
    with (for_each xs (insert_created path new_files) d').
  apply NoDup_cons in Hnodup as [Hx_xs Hnodup].
  apply IH; [by intros y Hy; apply Hxs; right | done | |].
  - intros y r Hy. unfold Sql.insert, with_table. simpl.
    intros [Hr| ->%list_elem_of_singleton]%elem_of_app.
    + apply Hfresh; [by right | done].
    + unfold row_key. simpl. intros [= ->]. done.
  - unfold unique_keys, Sql.insert, with_table. simpl. rewrite fmap_app.
    apply NoDup_app. split; [done|]. split; [|apply NoDup_singleton].
    intros key (r & Hkey & Hr)%list_elem_of_fmap Hsingle.
    change (row_key <$> [Row path x m]) with [(path, x)] in Hsingle.
    apply list_elem_of_singleton in Hsingle. subst key.
    apply (Hfresh x r); [by left | done | done].
Qed.

Lemma update_mtime_keys mtime path filename d :
  row_key <$> table (update_mtime mtime path filename d) = row_key <$> table d.
Proof.
  unfold update_mtime, with_table. simpl. rewrite <- list_fmap_compose.
  apply list_fmap_ext. intros _ r _. simpl. by case_bool_decide.
Qed.

Lemma update_loop_keys path new_files xs d d1 :
  for_each xs (update_modified path new_files) d = Ok d1 →
  row_key <$> table d1 = row_key <$> table d.
Proof.
  revert d. induction xs as [|x xs IH]; intros d; [by intros [= <-]|].
  change (for_each (x :: xs) (update_modified path new_files) d)
    with (update_modified path new_files d x
          ≫= for_each xs (update_modified path new_files)).
  destruct (update_modified path new_files d x) as [d'|] eqn:Hstep; [|done].
  change (Ok d' ≫= for_each xs (update_modified path new_files))
    with (for_each xs (update_modified path new_files) d').
  intros Hd1. rewrite (IH _ Hd1).
  unfold update_modified, getitem in Hstep.
  destruct (new_files !! x) as [[f m]|]; [|done]. injection Hstep as <-.
  apply update_mtime_keys.
Qed.

Lemma delete_loop_sublist path xs d d1 :
  for_each xs (delete_deleted path) d = Ok d1 → table d1 `sublist_of` table d.
Proof.
  revert d. induction xs as [|x xs IH]; intros d; [by intros [= <-]|].
  change (for_each (x :: xs) (delete_deleted path) d)
    with (delete_deleted path d x ≫= for_each xs (delete_deleted path)).
  rewrite delete_deleted_target.
  change (Ok ?d' ≫= for_each xs (delete_deleted path))
    with (for_each xs (delete_deleted path) d').
  intros Hd1%IH. etrans; [exact Hd1|]. apply sublist_filter.
Qed.

(** X5. [scan] keeps the table free of duplicates: when no two rows share
    a [(path, filename)] pair before, none do after. It inserts a row only
    for a name the old snapshot lacks, each such name once, and an update
    changes no key. *)
Theorem scan_keeps_keys_unique fs path d names :
  os_listdir fs path = Some names →
  unique_keys (table d) →
  ∃ res d', scan fs path d = Ok (res, d') ∧ unique_keys (table d').
Proof.
  intros Hnames Hunique.
  assert (Hlist : __listdir fs path = Ok (__listdir_loop fs path names))
    by (unfold __listdir; by rewrite Hnames).
  destruct (scan_steps fs path d _ Hlist)
    as (res & d1 & d2 & d3 & Hres & Hd1 & Hd2 & Hd3 & Hscan).
  exists res, (commit d3). split; [exact Hscan|].
  pose proof (new_files_of_well_keyed (__listdir_loop fs path names)) as Hnew.
  destruct (scanhelper_spec d path _ _
              (old_files_of_well_keyed (select_where_path path d)) Hnew)
    as (tree & changed & Hres' & _).
  rewrite Hres in Hres'. injection Hres' as ->. simpl in Hd1.
  destruct (insert_loop_unique path (new_files_of (__listdir_loop fs path names))
              (elements (dom (new_files_of (__listdir_loop fs path names))
                         ∖ dom (old_files_of (select_where_path path d))))
              d Hnew)
    as (d1' & Hd1' & Hu1).
  - intros x Hx%elem_of_elements. set_solver.
  - apply NoDup_elements.
  - intros x r [_ Hx]%elem_of_elements%elem_of_difference Hr.
    by apply (no_row_of_new_name path d).
  - done.
  - rewrite Hd1 in Hd1'. injection Hd1' as <-.
    change (table (commit d3)) with (table d3).
    unfold unique_keys in *. eapply sublist_NoDup.
    2: { apply fmap_sublist. exact (delete_loop_sublist _ _ _ _ Hd3). }
    change (table (commit d2)) with (table d2).
    rewrite (update_loop_keys _ _ _ _ _ Hd2). exact Hu1.
Qed.

Lemma scan_keeps_keys_unique_witness :
  unique_keys (table db_siblings)
  ∧ ∃ res d', scan fs_siblings_later "/r" db_siblings = Ok (res, d')
              ∧ unique_keys (table d').
Proof.
  assert (Hunique : unique_keys (table db_siblings)).
  { unfold unique_keys. apply (bool_decide_unpack _). vm_compute. exact I. }
  split; [exact Hunique|].
  exact (scan_keeps_keys_unique fs_siblings_later "/r" db_siblings ["foobar"]
           eq_refl Hunique).
Defined.

(** ** [remove] *)

Lemma app_empty_r (a : string) : a +:+ "" = a.
Proof. induction a as [|x a IH]; [done|]. rewrite app_cons_s. by f_equal. Qed.

Lemma like_starts_with (path s : string) :
  starts_with s path → like (path +:+ "%") s = true.
Proof. intros [rest ->]. apply like_prefix. Qed.

Lemma elem_of_remove path d r :
  r ∈ table (remove path d) ↔ r ∈ table d ∧ like (path +:+ "%") (r_path r) ≠ true.
Proof.
  unfold remove, delete_where_path_like, with_table. simpl.
  rewrite list_elem_of_filter. tauto.
Qed.

Lemma filter_twice {A} (P : A → Prop) `{!∀ x, Decision (P x)} (l : list A) :
  filter P (filter P l) = filter P l.
Proof.
  induction l as [|x l IH]; [done|]. rewrite (filter_cons P x l).
  destruct (decide (P x)) as [HP|HP]; [|exact IH].
  rewrite filter_cons. destruct (decide (P x)); [by f_equal | done].
Qed.

Lemma count_where_path_zero path d :
  (∀ r, r ∈ table d → r_path r ≠ path) → count_where_path path d = 0.
Proof.
  intros Hnone. unfold count_where_path.
  rewrite (elem_of_nil_inv (filter (λ r, r_path r = path) (table d))); [done|].
  intros r [Hp Hr]%list_elem_of_filter. by apply (Hnone r).
Qed.

Lemma count_where_path_pos path d r :
  r ∈ table d → r_path r = path → count_where_path path d > 0.
Proof.
  intros Hr Hp. unfold count_where_path.
  assert (r ∈ filter (λ r, r_path r = path) (table d)) as Hin
    by (by apply list_elem_of_filter).
  destruct (filter _ (table d)); [by apply elem_of_nil in Hin|]. simpl. lia.
Qed.

Lemma remove_rows path d r :
  r ∈ table (remove path d) → r ∈ table d ∧ ¬ starts_with (r_path r) path.
Proof.
  intros [Hr Hlike]%elem_of_remove. split; [done|].
  intros Hstart. by apply Hlike, like_starts_with.
Qed.

Lemma remove_count path d : count_where_path path (remove path d) = 0.
Proof.
  apply count_where_path_zero. intros r [_ Hstart]%remove_rows Hp.
  apply Hstart. exists "". by rewrite app_empty_r.
Qed.

(** X6. [remove(path)] deletes every row whose [path] column starts with
    [path], the rows of [path] itself among them, so that no row is counted
    for [path] afterwards; it adds nothing, commits, and a second [remove]
    changes nothing more. *)
Theorem remove_clears_path path d :
  count_where_path path (remove path d) = 0
  ∧ (∀ r, r ∈ table (remove path d) →
          r ∈ table d ∧ ¬ starts_with (r_path r) path)
  ∧ committed (remove path d) = table (remove path d)
  ∧ remove path (remove path d) = remove path d.
Proof.
  split; [apply remove_count|]. split; [apply remove_rows|]. split; [done|].
  unfold remove, delete_where_path_like, with_table, commit. simpl.
  by rewrite filter_twice.
Qed.

(** ** [initial_scan] on a path without rows *)

Lemma initial_scan_fresh commit_interval fuel fs path d batches :
  count_where_path path d = 0 →
  __walktree fuel fs path = Ok batches →
  ∃ d', initial_scan commit_interval fuel fs path d = Ok (PyNone, d')
        ∧ table d' = table d ++ concat batches
        ∧ committed d' = table d'.
Proof.
  intros Hcount Hwalk. unfold initial_scan.
  rewrite bool_decide_eq_false_2 by lia. rewrite Hwalk. simpl.
  pose proof (insert_batches_table commit_interval batches (d, 0)) as Htable.
  destruct (foldl _ (d, 0) batches) as [d1 n]. simpl in Htable.
  eexists. split; [done|]. simpl. by rewrite Htable.
Qed.

(** X7. After [remove(path)] the next [initial_scan(path)] does not take
    the table for populated: it walks the tree again and appends the rows
    of every batch to what [remove] left, all committed. *)
Theorem remove_then_initial_scan commit_interval fuel fs path d batches :
  __walktree fuel fs path = Ok batches →
  ∃ d', initial_scan commit_interval fuel fs path (remove path d) = Ok (PyNone, d')
        ∧ table d' = table (remove path d) ++ concat batches
        ∧ committed d' = table d'.
Proof.
  intros Hwalk. apply initial_scan_fresh; [apply remove_count | done].
Qed.

Lemma remove_then_initial_scan_witness :
  ∃ d', initial_scan 50 3 fs_x_ab "/x" (remove "/x" db_x) = Ok (PyNone, d')
        ∧ table d' = table (remove "/x" db_x)
                     ++ concat [[Row "/x/a" "b" 5]; [Row "/x" "a" (-1)]]
        ∧ committed d' = table d'.
Proof.
  apply (remove_then_initial_scan 50 3 fs_x_ab "/x" db_x). reflexivity.
Defined.

(** ** The rows of the walked directory itself *)

Lemma walktree_loop_last recurse entries rows batches :
  __walktree_loop recurse entries rows = Ok batches →
  ∃ front, batches = front ++ [rows ++ (row_of_entry <$> entries)].
Proof.
  revert rows batches.
  induction entries as [|[[[p f] m] b] entries IH]; intros rows batches; simpl.
  - intros [= <-]. exists []. by rewrite app_nil_r.
  - destruct b.
    + destruct (recurse (Path.join p f)) as [childrows|]; [|done]. simpl.
      destruct (__walktree_loop recurse entries _) as [yielded|] eqn:Hloop; [|done].
      simpl. intros [= <-]. destruct (IH _ _ Hloop) as [front ->].
      exists (childrows ++ front). by rewrite <- !app_assoc.
    + intros Hloop. destruct (IH _ _ Hloop) as [front ->].
      exists front. by rewrite <- !app_assoc.
Qed.

Lemma walktree_root_rows fuel fs path names batches name mtime is_dir :
  os_listdir fs path = Some names →
  name ∈ names → os_stat fs (Path.join path name) = Some (mtime, is_dir) →
  __walktree fuel fs path = Ok batches →
  Row path name (stored_mtime mtime is_dir) ∈ concat batches.
Proof.
  intros Hnames Hname Hstat. destruct fuel as [|fuel]; [done|]. simpl.
  unfold __listdir. rewrite Hnames. simpl.
  intros [front ->]%walktree_loop_last.
  apply elem_of_concat. eexists. split; [|apply elem_of_app; right; apply list_elem_of_here].
  simpl. apply list_elem_of_fmap. exists (path, name, mtime, is_dir).
  split; [done|]. by apply elem_of_listdir_loop.
Qed.

(** X8. Once [initial_scan(path)] has returned for a directory that has at
    least one child whose [os.stat] succeeds, every later [initial_scan] of
    the same path returns [False] and leaves the connection alone, whatever
    the file system has become. *)
Theorem initial_scan_of_populated_directory commit_interval fuel fs path d v d1
    names name mtime is_dir :
  os_listdir fs path = Some names →
  name ∈ names → os_stat fs (Path.join path name) = Some (mtime, is_dir) →
  initial_scan commit_interval fuel fs path d = Ok (v, d1) →
  ∀ fuel' fs', initial_scan commit_interval fuel' fs' path d1 = Ok (PyFalse, d1).
Proof.
  intros Hnames Hname Hstat Hscan fuel' fs'. apply initial_scan_populated.
  unfold initial_scan in Hscan. case_bool_decide as Hcount.
  - by injection Hscan as _ <-.
  - destruct (__walktree fuel fs path) as [batches|] eqn:Hwalk; [|done].
    destruct (initial_scan_fresh commit_interval fuel fs path d batches)
      as (d' & Hd' & Htable & _); [unfold count_where_path in *; lia | done |].
    unfold initial_scan in Hd'. rewrite bool_decide_eq_false_2 in Hd' by done.
    rewrite Hwalk in Hd'. rewrite Hd' in Hscan. injection Hscan as _ <-.
    apply (count_where_path_pos _ _ (Row path name (stored_mtime mtime is_dir)));
      [|done].
    rewrite Htable. apply elem_of_app. right.
    by apply (walktree_root_rows fuel fs path names).
Qed.

Lemma initial_scan_of_populated_directory_witness :
  ∃ d1, initial_scan 50 3 fs_x_ab "/x" empty_db = Ok (PyNone, d1)
        ∧ initial_scan 50 0 fs_x_empty "/x" d1 = Ok (PyFalse, d1).
Proof.
  exists (commit (Db [Row "/x/a" "b" 5; Row "/x" "a" (-1)] [])).
  assert (Hfirst : initial_scan 50 3 fs_x_ab "/x" empty_db
                   = Ok (PyNone, commit (Db [Row "/x/a" "b" 5; Row "/x" "a" (-1)] [])))
    by reflexivity.
  split; [exact Hfirst|].
  exact (initial_scan_of_populated_directory 50 3 fs_x_ab "/x" empty_db PyNone _
           ["a"] "a" 2 true eq_refl (list_elem_of_here _ _) eq_refl Hfirst 0%nat fs_x_empty).
Defined.

Lemma listdir_loop_nil fs path names :
  (∀ name, name ∈ names → os_stat fs (Path.join path name) = None) →
  __listdir_loop fs path names = [].
Proof.
  intros Hfail. apply elem_of_nil_inv. intros [[[p f] m] b] (_ & Hf & Hs)%elem_of_listdir_loop.
  rewrite (Hfail _ Hf) in Hs. done.
Qed.

(** X9. A directory without a child whose [os.stat] succeeds (an empty
    one, for instance) is never marked as populated: [initial_scan] stores
    no row, only commits, and the count it tests stays 0, so the next
    [initial_scan] walks the directory again. *)
Theorem initial_scan_of_empty_directory commit_interval fuel fs path d names :
  count_where_path path d = 0 →
  os_listdir fs path = Some names →
  (∀ name, name ∈ names → os_stat fs (Path.join path name) = None) →
  initial_scan commit_interval (S fuel) fs path d = Ok (PyNone, commit d)
  ∧ count_where_path path (commit d) = 0.
Proof.
  intros Hcount Hnames Hfail. split; [|done].
  unfold initial_scan. rewrite bool_decide_eq_false_2 by lia.
  simpl. unfold __listdir. rewrite Hnames. simpl.
  by rewrite (listdir_loop_nil _ _ _ Hfail).
Qed.

Lemma initial_scan_of_empty_directory_witness :
  initial_scan 50 1 fs_x_empty "/x" empty_db = Ok (PyNone, commit empty_db)
  ∧ count_where_path "/x" (commit empty_db) = 0.
Proof.
  apply (initial_scan_of_empty_directory 50 0 fs_x_empty "/x" empty_db []).
  - reflexivity.
  - reflexivity.
  - by intros name ?%elem_of_nil.
Defined.

(** ** A directory that cannot be listed *)

Lemma walktree_loop_fatal recurse entries rows p f m :
  (p, f, m, true) ∈ entries →
  (∀ batches, recurse (Path.join p f) ≠ Ok batches) →
  ∀ batches, __walktree_loop recurse entries rows ≠ Ok batches.
Proof.
  intros Hin Hrec. revert rows.
  induction entries as [|[[[p' f'] m'] b'] entries IH]; intros rows batches;
    [by apply elem_of_nil in Hin|].
  simpl. apply elem_of_cons in Hin as [Heq|Hin].
  - injection Heq as <- <- <- <-.
    destruct (recurse (Path.join p f)) as [childrows|] eqn:Hchild; [|done].
    by destruct (Hrec childrows).
  - destruct b'; [|by apply IH].
    destruct (recurse (Path.join p' f')) as [childrows|]; [|done]. simpl.
    destruct (__walktree_loop recurse entries _) as [yielded|] eqn:Hloop; [|done].
    by destruct (IH Hin _ _ Hloop).
Qed.

(** X10. Unlike an entry whose [os.stat] fails, a subdirectory that
    [os.stat] shows but [os.listdir] refuses is fatal for the tree walker:
    [__walktree] raises whatever the fuel, and so does [initial_scan] of a
    path that has no rows yet. *)
Theorem unlistable_subdirectory_is_fatal commit_interval fs path d names name mtime :
  os_listdir fs path = Some names →
  name ∈ names → os_stat fs (Path.join path name) = Some (mtime, true) →
  os_listdir fs (Path.join path name) = None →
  count_where_path path d = 0 →
  ∀ fuel, (∀ batches, __walktree fuel fs path ≠ Ok batches)
          ∧ (∀ out, initial_scan commit_interval fuel fs path d ≠ Ok out)
          ∧ __walktree (S fuel) fs (Path.join path name) = Raise OSError.
Proof.
  intros Hnames Hname Hstat Hlocked Hcount fuel.
  assert (Hwalk : ∀ batches, __walktree fuel fs path ≠ Ok batches).
  { destruct fuel as [|fuel]; [done|]. simpl. unfold __listdir at 1.
    rewrite Hnames. simpl.
    apply (walktree_loop_fatal _ _ _ path name mtime).
    - by apply elem_of_listdir_loop.
    - intros batches. destruct fuel as [|fuel]; [done|]. simpl.
      unfold __listdir. by rewrite Hlocked. }
  split; [exact Hwalk|]. split.
  - intros out. unfold initial_scan. rewrite bool_decide_eq_false_2 by lia.
    destruct (__walktree fuel fs path) as [batches|] eqn:Hw; [|done].
    by destruct (Hwalk batches).
  - simpl. unfold __listdir. by rewrite Hlocked.
Qed.

Lemma unlistable_subdirectory_is_fatal_witness :
  __listdir fs_locked "/v" = Ok [("/v", "kept", 3, false); ("/v", "locked", 4, true)]
  ∧ __walktree 5 fs_locked "/v" = Raise OSError
  ∧ ∀ fuel out, initial_scan 50 fuel fs_locked "/v" empty_db ≠ Ok out.
Proof.
  split; [reflexivity|]. split; [reflexivity|]. intros fuel.
  apply (unlistable_subdirectory_is_fatal 50 fs_locked "/v" empty_db
           ["kept"; "locked"] "locked" 4); try reflexivity.
  apply list_elem_of_further, list_elem_of_here.
Defined.

(** ** [scan] of a directory the table does not know *)

Lemma new_files_of_dom_acc (entries : list (string * string * Z * bool))
    (acc : gmap string (string * Z)) k :
  k ∈ dom (foldl (λ new_files '(_, filename, mtime, is_dir),
                    <[filename := (filename, stored_mtime mtime is_dir)]> new_files)
                 acc entries)
  ↔ k ∈ dom acc ∨ ∃ p mtime is_dir, (p, k, mtime, is_dir) ∈ entries.
Proof.
  revert acc. induction entries as [|[[[p f] m] b] entries IH]; intros acc; simpl.
  - split; [by left|]. intros [?|(? & ? & ? & ?%elem_of_nil)]; done.
  - rewrite IH, dom_insert_L, elem_of_union, elem_of_singleton. split.
    + intros [[->|?]|(p' & m' & b' & ?)]; [right | by left | right].
      * exists p, m, b. by left.
      * exists p', m', b'. by right.
    + intros [?|(p' & m' & b' & [Heq|?]%elem_of_cons)]; [by left; right | |].
      * injection Heq as -> -> -> ->. by left; left.
      * right. eauto.
Qed.

Lemma new_files_of_listing fs path names name :
  name ∈ dom (new_files_of (__listdir_loop fs path names))
  ↔ name ∈ names ∧ is_Some (os_stat fs (Path.join path name)).
Proof.
  unfold new_files_of. rewrite new_files_of_dom_acc, dom_empty_L. split.
  - intros [?%elem_of_empty|(p & m & b & (-> & ? & ?)%elem_of_listdir_loop)]; [done|].
    eauto.
  - intros [Hname [[m b] Hstat]]. right. exists path, m, b.
    by apply elem_of_listdir_loop.
Qed.

Lemma new_files_of_value fs path names name v :
  new_files_of (__listdir_loop fs path names) !! name = Some v →
  ∃ mtime is_dir,
    name ∈ names ∧ os_stat fs (Path.join path name) = Some (mtime, is_dir)
    ∧ v = (name, stored_mtime mtime is_dir).
Proof.
  intros (p & m & b & (-> & ? & ?)%elem_of_listdir_loop & ->)%new_files_of_lookup.
  eauto.
Qed.

Lemma insert_loop_exact path new_files xs d :
  (∀ x, x ∈ xs → x ∈ dom new_files) →
  ∃ d1, for_each xs (insert_created path new_files) d = Ok d1
        ∧ ∀ r, r ∈ table d1 ↔
            r ∈ table d
            ∨ ∃ x filename mtime,
                x ∈ xs ∧ new_files !! x = Some (filename, mtime)
                ∧ r = Row path filename mtime.
Proof.
  revert d. induction xs as [|x xs IH]; intros d Hxs.
  - exists d. split; [done|]. intros r. split; [by left|].
    intros [?|(? & ? & ? & ?%elem_of_nil & _)]; done.
  - assert (x ∈ dom new_files) as [[f m] Hx]%elem_of_dom by (apply Hxs; by left).
    change (for_each (x :: xs) (insert_created path new_files) d)
      with (insert_created path new_files d x
            ≫= for_each xs (insert_created path new_files)).
    rewrite (insert_created_eq _ _ _ _ _ _ Hx).
    change (Ok ?d' ≫= for_each xs (insert_created path new_files))
      with (for_each xs (insert_created path new_files) d').
    destruct (IH (Sql.insert (Row path f m) d)) as (d1 & Hd1 & Hrows).
    { intros y Hy. apply Hxs. by right. }
    exists d1. split; [exact Hd1|]. intros r. rewrite Hrows.
    unfold Sql.insert, with_table. simpl.
    rewrite elem_of_app, list_elem_of_singleton. split.
    + intros [[?| ->]|(y & f' & m' & ? & ? & ->)]; [by left | right | right].
      * exists x, f, m. split; [by left | done].
      * exists y, f', m'. split; [by right | done].
    + intros [?|(y & f' & m' & [->|?]%elem_of_cons & Hy & ->)].
      * by left; left.
      * rewrite Hx in Hy. injection Hy as <- <-. by left; right.
      * right. exists y, f', m'. done.
Qed.

Lemma select_where_path_nil path d :
  count_where_path path d = 0 → select_where_path path d = [].
Proof.
  unfold count_where_path, select_where_path.
  destruct (filter _ (table d)); [done|]. simpl. lia.
Qed.

(** X11. For a directory of which the table holds no row, [scan] reports
    every child whose [os.stat] succeeds as created and nothing as deleted
    or modified, and it adds exactly one row for each of them, with [-1]
    for a directory and the mtime otherwise. *)
Theorem scan_of_unknown_directory fs path d names :
  count_where_path path d = 0 →
  os_listdir fs path = Some names →
  ∃ fresh d',
    scan fs path d = Ok (ScanResult fresh ∅ ∅, d')
    ∧ (∀ name, name ∈ fresh ↔
         name ∈ names ∧ is_Some (os_stat fs (Path.join path name)))
    ∧ (∀ r, r ∈ table d' ↔
         r ∈ table d
         ∨ ∃ name mtime is_dir,
             name ∈ names
             ∧ os_stat fs (Path.join path name) = Some (mtime, is_dir)
             ∧ r = Row path name (stored_mtime mtime is_dir)).
Proof.
  intros Hcount Hnames.
  exists (dom (new_files_of (__listdir_loop fs path names))).
  unfold scan, __listdir. rewrite Hnames. simpl.
  rewrite (select_where_path_nil _ _ Hcount).
  change (old_files_of []) with (∅ : gmap string (string * Z)).
  pose proof (new_files_of_well_keyed (__listdir_loop fs path names)) as Hnew.
  set (new_files := new_files_of (__listdir_loop fs path names)) in *.
  destruct (scanhelper_spec d path ∅ new_files (map_Forall_empty _) Hnew)
    as (tree & changed & -> & Htree & _ & Hch).
  rewrite dom_empty_L, difference_empty_L in *.
  assert (∅ ∖ dom new_files = (∅ : gset string)) as Hnone by set_solver.
  rewrite Hnone in *. rewrite elements_empty in Htree. injection Htree as <-.
  assert (changed = ∅) as ->.
  { apply set_eq. intros x. rewrite Hch. split; [|by intros ?%elem_of_empty].
    intros (? & ? & Hx & _). by rewrite lookup_empty in Hx. }
  rewrite union_empty_l_L. simpl.
  destruct (insert_loop_exact path new_files (elements (dom new_files)) d)
    as (d1 & -> & Hrows).
  { by intros x ?%elem_of_elements. }
  simpl. rewrite elements_empty. simpl. eexists. split; [done|]. split.
  - intros name. apply new_files_of_listing.
  - intros r. simpl. rewrite Hrows. split.
    + intros [?|(x & f & m & Hx & Hv & ->)]; [by left|]. right.
      apply new_files_of_value in Hv as (mtime & is_dir & ? & ? & [= -> ->]).
      eauto 6.
    + intros [?|(name & mtime & is_dir & Hname & Hstat & ->)]; [by left|]. right.
      assert (name ∈ dom new_files) as [v Hv]%elem_of_dom
        by (apply new_files_of_listing; eauto).
      pose proof Hv as Hv'.
      apply new_files_of_value in Hv' as (m' & b' & _ & Hstat' & ->).
      rewrite Hstat in Hstat'. injection Hstat' as <- <-.
      exists name, name, (stored_mtime mtime is_dir).
      split; [by apply elem_of_elements, elem_of_dom; eauto | done].
Qed.

Lemma scan_of_unknown_directory_witness :
  ∃ fresh d',
    scan fs_vanished "/v" db_x = Ok (ScanResult fresh ∅ ∅, d')
    ∧ (∀ name, name ∈ fresh ↔
         name ∈ ["kept"; "vanished"; "sub"]
         ∧ is_Some (os_stat fs_vanished (Path.join "/v" name)))
    ∧ (∀ r, r ∈ table d' ↔
         r ∈ table db_x
         ∨ ∃ name mtime is_dir,
             name ∈ ["kept"; "vanished"; "sub"]
             ∧ os_stat fs_vanished (Path.join "/v" name) = Some (mtime, is_dir)
             ∧ r = Row "/v" name (stored_mtime mtime is_dir)).
Proof.
  exact (scan_of_unknown_directory fs_vanished "/v" db_x
           ["kept"; "vanished"; "sub"] eq_refl eq_refl).
Defined.

(** ** What [scan_tree] yields *)

Lemma elem_of_prepend_path path (X : gset string) x :
  x ∈ prepend_path path X ↔ ∃ name, name ∈ X ∧ x = path +:+ Path.sep +:+ name.
Proof.
  unfold prepend_path. rewrite elem_of_foldl_add. split.
  - intros [?%elem_of_empty|(name & ?%elem_of_elements & ->)]; [done | eauto].
  - intros (name & ? & ->). right. exists name. by rewrite elem_of_elements.
Qed.

Lemma scan_tree_loop_full recurse fs path filenames d yielded d' :
  (∀ p d yielded d', recurse p d = Ok (yielded, d') →
     ∀ q res, (q, res) ∈ yielded → full_names q res) →
  scan_tree_loop recurse fs path filenames d = Ok (yielded, d') →
  ∀ q res, (q, res) ∈ yielded → full_names q res.
Proof.
  intros Hrec. revert d yielded d'.
  induction filenames as [|f filenames IH]; intros d yielded d'; simpl.
  - intros [= <- _] q res ?%elem_of_nil. done.
  - destruct (os_stat fs (Path.join path f)) as [[m []]|]; [|apply IH..].
    destruct (recurse (Path.join path f) d) as [[sub d1]|] eqn:Hsub; [|done]. simpl.
    destruct (scan_tree_loop recurse fs path filenames d1) as [[rest d2]|] eqn:Hloop;
      [|done].
    simpl. intros [= <- _] q res [Hq|Hq]%elem_of_app.
    + by eapply Hrec.
    + by eapply IH.
Qed.

Lemma scan_tree_full fuel fs path d yielded d' :
  scan_tree fuel fs path d = Ok (yielded, d') →
  (∃ res rest, yielded = (path, res) :: rest)
  ∧ ∀ q res, (q, res) ∈ yielded → full_names q res.
Proof.
  revert path d yielded d'. induction fuel as [|fuel IH]; intros path d yielded d';
    [done|].
  rewrite scan_tree_S. destruct (scan fs path d) as [[res d1]|]; [|done]. simpl.
  destruct (os_listdir fs path) as [filenames|]; [|done]. simpl.
  destruct (scan_tree_loop (scan_tree fuel fs) fs path filenames d1)
    as [[rest d2]|] eqn:Hloop; [|done].
  simpl. intros [= <- _]. split; [eauto|].
  intros q res' [Heq|Hq]%elem_of_cons.
  - injection Heq as -> ->. intros x. unfold prepend_result. simpl.
    rewrite !elem_of_union, !elem_of_prepend_path.
    intros [[(n & _ & ->)|(n & _ & ->)]|(n & _ & ->)]; exists n;
      by rewrite app_assoc_s.
  - eapply scan_tree_loop_full; [|exact Hloop|exact Hq].
    intros p d0 y d0' Hy. by apply (IH _ _ _ _ Hy).
Qed.

(** X12. What [scan_tree] yields starts with the pair of the scanned path
    itself, and every name in the three sets of a yielded pair is a full
    name: it starts with the path the pair is yielded for, followed by the
    separator. *)
Theorem scan_tree_yields_full_names fuel fs path d yielded d' :
  scan_tree fuel fs path d = Ok (yielded, d') →
  (∃ res rest, yielded = (path, res) :: rest)
  ∧ ∀ q res x,
      (q, res) ∈ yielded → x ∈ created res ∪ deleted res ∪ modified res →
      starts_with x (q +:+ Path.sep).
Proof.
  intros [Hhead Hfull]%scan_tree_full. split; [exact Hhead|].
  intros q res x Hq. by apply Hfull.
Qed.

Lemma scan_tree_yields_full_names_witness :
  ∃ yielded d',
    scan_tree 2 fs_x_new "/x" db_x = Ok (yielded, d')
    ∧ (∃ res rest, yielded = ("/x", res) :: rest)
    ∧ ∀ q res x,
        (q, res) ∈ yielded → x ∈ created res ∪ deleted res ∪ modified res →
        starts_with x (q +:+ Path.sep).
Proof.
  destruct (scan_tree 2 fs_x_new "/x" db_x) as [[yielded d']|] eqn:Htree;
    [|by vm_compute in Htree].
  exists yielded, d'. split; [done|].
  exact (scan_tree_yields_full_names 2 fs_x_new "/x" db_x yielded d' Htree).
Defined.

(** ** The commits of [initial_scan] *)

Lemma insert_batches_concat commit_interval st batches :
  insert_batches commit_interval st batches
  = foldl (insert_batched commit_interval) st (concat batches).
Proof.
  unfold insert_batches. revert st.
  induction batches as [|files batches IH]; intros st; simpl; [done|].
  rewrite foldl_app, IH. case_bool_decide as Hlen; [done|].
  destruct files; [done | by contradict Hlen].
Qed.

Lemma insert_batched_pending commit_interval files d n :
  0 < commit_interval → 0 ≤ n < commit_interval → pending d n →
  let st := foldl (insert_batched commit_interval) (d, n) files in
  0 ≤ st.2 < commit_interval ∧ pending st.1 st.2.
Proof.
  intros Hci. revert d n. induction files as [|r files IH]; intros d n Hn Hp; simpl;
    [done|].
  unfold insert_batched at 2. case_bool_decide as Hfull.
  - apply IH; [lia|]. exists []. split; [by rewrite app_nil_r | done].
  - apply IH; [lia|]. destruct Hp as (rows & Htable & Hlen).
    exists (rows ++ [r]). unfold Sql.insert, with_table. simpl.
    rewrite Htable, app_assoc, length_app. simpl. split; [done | lia].
Qed.

Lemma insert_batched_never commit_interval files d n :
  commit_interval ≤ 0 → 0 ≤ n →
  let st := foldl (insert_batched commit_interval) (d, n) files in
  committed st.1 = committed d ∧ st.2 = n + Z.of_nat (length files).
Proof.
  intros Hci. revert d n. induction files as [|r files IH]; intros d n Hn; simpl;
    [split; [done | lia]|].
  unfold insert_batched at 2. rewrite bool_decide_eq_false_2 by lia.
  destruct (IH (Sql.insert r d) (n + 1)) as [Hc Hk]; [lia|].
  split; [exact Hc|]. etrans; [exact Hk|]. lia.
Qed.

(** The insert loop inside [initial_scan]. *)
Lemma initial_scan_insert_batches commit_interval fuel fs path d batches :
  count_where_path path d = 0 →
  __walktree fuel fs path = Ok batches →
  initial_scan commit_interval fuel fs path d
  = Ok (PyNone, commit (insert_batches commit_interval (d, 0) batches).1).
Proof.
  intros Hcount Hwalk. unfold initial_scan, insert_batches.
  rewrite bool_decide_eq_false_2 by lia. rewrite Hwalk. simpl.
  by destruct (foldl _ (d, 0) batches).
Qed.

(** X13. With a positive [commit_interval] the insert loop of
    [initial_scan] never leaves that many rows uncommitted: after any
    number of batches the rows inserted since the last commit number less
    than [commit_interval], and they are the last rows of the table. *)
Theorem initial_scan_bounds_uncommitted commit_interval d batches :
  0 < commit_interval → committed d = table d →
  let st := insert_batches commit_interval (d, 0) batches in
  0 ≤ st.2 < commit_interval
  ∧ pending st.1 st.2
  ∧ table st.1 = table d ++ concat batches.
Proof.
  intros Hci Hd. rewrite insert_batches_concat.
  destruct (insert_batched_pending commit_interval (concat batches) d 0 Hci)
    as [Hn Hp]; [lia | |].
  { exists []. by rewrite app_nil_r. }
  split; [exact Hn|]. split; [exact Hp|]. apply insert_batched_table.
Qed.

Lemma initial_scan_bounds_uncommitted_witness :
  let st := insert_batches 2 (empty_db, 0)
              [[Row "/x" "p" 1; Row "/x" "q" 2; Row "/x" "r" 3]] in
  0 ≤ st.2 < 2 ∧ pending st.1 st.2
  ∧ table st.1 = [Row "/x" "p" 1; Row "/x" "q" 2; Row "/x" "r" 3]
  ∧ committed st.1 = [Row "/x" "p" 1; Row "/x" "q" 2].
Proof.
  destruct (initial_scan_bounds_uncommitted 2 empty_db
              [[Row "/x" "p" 1; Row "/x" "q" 2; Row "/x" "r" 3]])
    as (Hn & Hp & Ht); [lia | reflexivity |].
  split; [exact Hn|]. split; [exact Hp|]. split; [exact Ht | reflexivity].
Defined.

(** X14. With a [commit_interval] of 0 or less the test
    [num_uncommitted_rows == commit_interval] never holds: the insert loop
    of [initial_scan] commits nothing, and all rows wait for the commit at
    the end. *)
Theorem initial_scan_without_interval commit_interval d batches :
  commit_interval ≤ 0 →
  let st := insert_batches commit_interval (d, 0) batches in
  committed st.1 = committed d
  ∧ st.2 = Z.of_nat (length (concat batches))
  ∧ table st.1 = table d ++ concat batches.
Proof.
  intros Hci. rewrite insert_batches_concat.
  destruct (insert_batched_never commit_interval (concat batches) d 0 Hci)
    as [Hc Hn]; [lia|].
  split; [exact Hc|]. split; [by rewrite Hn|]. apply insert_batched_table.
Qed.

Lemma initial_scan_without_interval_witness :
  let st := insert_batches 0 (empty_db, 0)
              [[Row "/x" "p" 1; Row "/x" "q" 2; Row "/x" "r" 3]] in
  committed st.1 = [] ∧ st.2 = 3
  ∧ table st.1 = [Row "/x" "p" 1; Row "/x" "q" 2; Row "/x" "r" 3].
Proof.
  apply (initial_scan_without_interval 0 empty_db
           [[Row "/x" "p" 1; Row "/x" "q" 2; Row "/x" "r" 3]]). lia.
Defined.

(** ** Names without a separator *)

Lemma walktree_loop_listed fs recurse entries rows batches :
  (∀ p batches, recurse p = Ok batches →
     ∀ batch r, batch ∈ batches → r ∈ batch →
       ∃ names, os_listdir fs (r_path r) = Some names ∧ r_filename r ∈ names) →
  (∀ p f m b, (p, f, m, b) ∈ entries →
     ∃ names, os_listdir fs p = Some names ∧ f ∈ names) →
  (∀ r, r ∈ rows → ∃ names, os_listdir fs (r_path r) = Some names ∧ r_filename r ∈ names) →
  __walktree_loop recurse entries rows = Ok batches →
  ∀ batch r, batch ∈ batches → r ∈ batch →
    ∃ names, os_listdir fs (r_path r) = Some names ∧ r_filename r ∈ names.
Proof.
  intros Hrec. revert rows batches.
  induction entries as [|[[[p f] m] b] entries IHe]; intros rows batches Hentries Hrows;
    simpl.
  - intros [= <-] batch r ->%list_elem_of_singleton. apply Hrows.
  - assert (Hrows' : ∀ r, r ∈ rows ++ [Row p f (stored_mtime m b)] →
              ∃ names, os_listdir fs (r_path r) = Some names ∧ r_filename r ∈ names).
    { intros r [?| ->%list_elem_of_singleton]%elem_of_app; [by apply Hrows|].
      apply (Hentries p f m b). by left. }
    assert (Hentries' : ∀ p f m b, (p, f, m, b) ∈ entries →
              ∃ names, os_listdir fs p = Some names ∧ f ∈ names).
    { intros ? ? ? ? ?. eapply Hentries. by right. }
    destruct b.
    + destruct (recurse (Path.join p f)) as [childrows|] eqn:Hchild; [|done].
      simpl.
      destruct (__walktree_loop recurse entries
                  (rows ++ [Row p f (stored_mtime m true)]))
        as [yielded|] eqn:Hloop; [|done].
      simpl. intros [= <-] batch r [Hb|Hb]%elem_of_app.
      * by eapply Hrec.
      * by eapply (IHe _ _ Hentries' Hrows' Hloop).
    + by apply IHe.
Qed.

Lemma walktree_listed fs fuel path batches :
  __walktree fuel fs path = Ok batches →
  ∀ batch r, batch ∈ batches → r ∈ batch →
    ∃ names, os_listdir fs (r_path r) = Some names ∧ r_filename r ∈ names.
Proof.
  revert path batches. induction fuel as [|fuel IH]; intros path batches; [done|].
  simpl. unfold __listdir. destruct (os_listdir fs path) as [filenames|] eqn:Hnames;
    [|done].
  simpl. apply walktree_loop_listed.
  - exact IH.
  - intros p f m b (-> & ? & _)%elem_of_listdir_loop. eauto.
  - by intros r ?%elem_of_nil.
Qed.

Lemma scan_rows_listed fs path d names res d' r :
  os_listdir fs path = Some names →
  scan fs path d = Ok (res, d') →
  r ∈ table d' → r ∈ table d ∨ (r_path r = path ∧ r_filename r ∈ names).
Proof.
  intros Hnames. unfold scan, __listdir. rewrite Hnames. simpl.
  assert (Hfrom : ∀ k filename mtime,
            new_files_of (__listdir_loop fs path names) !! k = Some (filename, mtime) →
            filename ∈ names).
  { intros k f m (? & ? & ? & _ & [= -> _])%new_files_of_value. done. }
  destruct (scanhelper_spec d path _ _
              (old_files_of_well_keyed (select_where_path path d))
              (new_files_of_well_keyed (__listdir_loop fs path names)))
    as (tree & changed & -> & _ & _ & Hch).
  simpl.
  destruct (insert_loop path (new_files_of (__listdir_loop fs path names))
              (elements (dom (new_files_of (__listdir_loop fs path names))
                         ∖ dom (old_files_of (select_where_path path d)))) d)
    as (d1 & -> & _ & Hins).
  { intros x Hx%elem_of_elements. set_solver. }
  simpl.
  destruct (update_loop path (new_files_of (__listdir_loop fs path names))
              (elements changed) (commit d1)) as (d2 & -> & _ & Hupd).
  { intros x (mo & mn & _ & Hn & _)%elem_of_elements%Hch. apply elem_of_dom. eauto. }
  simpl.
  destruct (delete_loop path
              (elements ((dom (old_files_of (select_where_path path d))
                          ∖ dom (new_files_of (__listdir_loop fs path names))) ∪ tree))
              (commit d2))
    as (d3 & -> & _ & Hdel).
  simpl. intros [= <- <-] Hr. simpl in Hr.
  apply Hdel in Hr. simpl in Hr.
  apply Hupd in Hr as [Hr|(k & f & m & Hk & ->)]; [|right; split; [done|by eapply Hfrom]].
  simpl in Hr.
  apply Hins in Hr as [Hr|(k & f & m & Hk & ->)]; [by left|].
  right. split; [done | by eapply Hfrom].
Qed.

Lemma fs_of_names_plain nodes :
  listed_names_plainb nodes = true → listdir_names_plain (fs_of nodes).
Proof.
  intros Hnodes p names name. simpl.
  induction nodes as [|[q n] nodes IH]; simpl; [done|].
  simpl in Hnodes. apply andb_prop in Hnodes as [Hn Hnodes].
  destruct (String.eqb p q); [|by apply IH].
  destruct n as [|m listed]; [done|]. intros [= <-] Hname.
  rewrite forallb_forall in Hn. apply negb_true_iff, Hn. by apply list_elem_of_In.
Qed.

(** X15. No separator enters the table through a file name: when
    [os.listdir] returns names without a separator, as it does, and the
    names in the table hold none, the names in the table hold none after
    [scan] and after [initial_scan]. *)
Theorem writes_keep_names_plain fs :
  listdir_names_plain fs →
  (∀ path d names res d',
     os_listdir fs path = Some names →
     (∀ r, r ∈ table d → Path.has_sep (r_filename r) = false) →
     scan fs path d = Ok (res, d') →
     ∀ r, r ∈ table d' → Path.has_sep (r_filename r) = false)
  ∧ (∀ commit_interval fuel path d v d',
       (∀ r, r ∈ table d → Path.has_sep (r_filename r) = false) →
       initial_scan commit_interval fuel fs path d = Ok (v, d') →
       ∀ r, r ∈ table d' → Path.has_sep (r_filename r) = false).
Proof.
  intros Hplain. split.
  - intros path d names res d' Hnames Hd Hscan r Hr.
    destruct (scan_rows_listed _ _ _ _ _ _ _ Hnames Hscan Hr) as [?|[_ Hin]];
      [by apply Hd|].
    by apply (Hplain path names).
  - intros ci fuel path d v d' Hd
      [[_ ->]|(batches & Hwalk & _ & Htable & _)]%initial_scan_table r;
      [by apply Hd|].
    rewrite Htable. intros [?|(batch & Hr & Hb)%elem_of_concat]%elem_of_app;
      [by apply Hd|].
    destruct (walktree_listed _ _ _ _ Hwalk _ _ Hb Hr) as (names & Hnames & Hin).
    by apply (Hplain (r_path r) names).
Qed.

Lemma writes_keep_names_plain_witness :
  listdir_names_plain fs_x_new
  ∧ (∀ r, r ∈ [Row "/x" "y" (-1)] → Path.has_sep (r_filename r) = false)
  ∧ (∀ r, r ∈ [Row "/x/y" "z.txt" 7; Row "/x" "y" (-1)] →
          Path.has_sep (r_filename r) = false).
Proof.
  assert (Hplain : listdir_names_plain fs_x_new)
    by (apply fs_of_names_plain; reflexivity).
  destruct (writes_keep_names_plain fs_x_new Hplain) as [Hscan Hinit].
  assert (Hd : ∀ r, r ∈ table db_x → Path.has_sep (r_filename r) = false).
  { intros r Hr. change (table db_x) with [Row "/x/a" "b" 5; Row "/x" "a" (-1)] in Hr.
    apply elem_of_cons in Hr as [-> | Hr]; [reflexivity|].
    apply list_elem_of_singleton in Hr as ->. reflexivity. }
  split; [exact Hplain|]. split.
  - apply (Hscan "/x" db_x ["y"] (ScanResult {["y"]} {["a"; "a/b"]} ∅)
             (commit (Db [Row "/x" "y" (-1)] [])));
      [reflexivity | exact Hd | vm_compute; reflexivity].
  - apply (Hinit 50 3%nat "/x" empty_db PyNone
             (commit (Db [Row "/x/y" "z.txt" 7; Row "/x" "y" (-1)] [])));
      [by intros r ?%elem_of_nil | vm_compute; reflexivity].
Defined.

(** ** Scanning twice *)

Lemma new_files_of_listing_lookup fs path names name :
  new_files_of (__listdir_loop fs path names) !! name
  = if decide (name ∈ names)
    then (λ '(mtime, is_dir), (name, stored_mtime mtime is_dir))
           <$> os_stat fs (Path.join path name)
    else None.
Proof.
  destruct (new_files_of (__listdir_loop fs path names) !! name) as [v|] eqn:Hv.
  - apply new_files_of_value in Hv as (mtime & is_dir & Hin & Hstat & ->).
    by rewrite decide_True, Hstat.
  - destruct (decide (name ∈ names)) as [Hin|]; [|done].
    destruct (os_stat fs (Path.join path name)) as [[mtime is_dir]|] eqn:Hstat; [|done].
    apply not_elem_of_dom in Hv. destruct Hv.
    apply new_files_of_listing. split; [done|]. by rewrite Hstat.
Qed.

(** X16. A scan that follows a scan of the same directory, with nothing
    changed in between, reports nothing and writes nothing, when the path
    holds no [%] and the names stored for it are not empty, hold no [%]
    and, as all stored names, no separator. *)
Theorem scan_twice_reports_nothing fs path d res d1 :
  has_percent path = false →
  (∀ r, r ∈ table d → Path.has_sep (r_filename r) = false) →
  (∀ r, r ∈ table d → r_path r = path →
        r_filename r ≠ "" ∧ has_percent (r_filename r) = false) →
  scan fs path d = Ok (res, d1) →
  scan fs path d1 = Ok (ScanResult ∅ ∅ ∅, d1).
Proof. apply rescan_unchanged. Qed.

Lemma scan_twice_reports_nothing_witness :
  scan fs_x_later "/x" db_x
  = Ok (ScanResult {["c"]} {["a"; "a/b"]} ∅, commit (Db [Row "/x" "c" 9] []))
  ∧ scan fs_x_later "/x" (commit (Db [Row "/x" "c" 9] []))
    = Ok (ScanResult ∅ ∅ ∅, commit (Db [Row "/x" "c" 9] [])).
Proof.
  assert (Hscan : scan fs_x_later "/x" db_x
                  = Ok (ScanResult {["c"]} {["a"; "a/b"]} ∅,
                        commit (Db [Row "/x" "c" 9] [])))
    by (vm_compute; reflexivity).
  split; [exact Hscan|].
  apply (scan_twice_reports_nothing fs_x_later "/x" db_x
           (ScanResult {["c"]} {["a"; "a/b"]} ∅)); [reflexivity | | | exact Hscan].
  - intros r Hr. change (table db_x) with [Row "/x/a" "b" 5; Row "/x" "a" (-1)] in Hr.
    apply elem_of_cons in Hr as [-> | Hr]; [reflexivity|].
    apply list_elem_of_singleton in Hr as ->. reflexivity.
  - intros r Hr. change (table db_x) with [Row "/x/a" "b" 5; Row "/x" "a" (-1)] in Hr.
    apply elem_of_cons in Hr as [-> | Hr]; [discriminate|].
    apply list_elem_of_singleton in Hr as ->. intros _. split; [discriminate | reflexivity].
Defined.

(** X17. After [scan] the table mirrors the directory: the mtime that a
    fetch of the rows of [path] keeps for a name is the one [os.stat] gave
    for it, [-1] for a directory, when the name is listed and [os.stat]
    succeeds on it, and there is no row for the name otherwise. The path
    holds no [%]; the names stored for it are not empty, hold no [%] and,
    as all stored names, no separator. *)
Theorem scan_mirrors_listing fs path d names res d1 :
  os_listdir fs path = Some names →
  has_percent path = false →
  (∀ r, r ∈ table d → Path.has_sep (r_filename r) = false) →
  (∀ r, r ∈ table d → r_path r = path →
        r_filename r ≠ "" ∧ has_percent (r_filename r) = false) →
  scan fs path d = Ok (res, d1) →
  ∀ name,
    latest name (select_where_path path d1)
    = if decide (name ∈ names)
      then (λ '(mtime, is_dir), stored_mtime mtime is_dir)
             <$> os_stat fs (Path.join path name)
      else None.
Proof.
  intros Hnames Hpath Hrows Hplain Hscan name.
  assert (Hlist : __listdir fs path = Ok (__listdir_loop fs path names))
    by (unfold __listdir; by rewrite Hnames).
  pose proof (snapshot_after_scan _ _ _ _ _ _ Hpath Hrows Hplain Hlist Hscan) as Hsnap.
  apply (f_equal (λ m : gmap string (string * Z), m !! name)) in Hsnap.
  simpl in Hsnap.
  rewrite old_files_of_lookup, new_files_of_listing_lookup in Hsnap.
  destruct (decide (name ∈ names)) as [Hin|Hin].
  - destruct (os_stat fs (Path.join path name)) as [[mtime is_dir]|];
      destruct (latest name (select_where_path path d1)); simpl in *; congruence.
  - by destruct (latest name (select_where_path path d1)).
Qed.

Lemma scan_mirrors_listing_witness :
  latest "c" (select_where_path "/x" (commit (Db [Row "/x" "c" 9] [])))
  = if decide ("c" ∈ ["c"])
    then (λ '(mtime, is_dir), stored_mtime mtime is_dir)
           <$> os_stat fs_x_later (Path.join "/x" "c")
    else None.
Proof.
  apply (scan_mirrors_listing fs_x_later "/x" db_x ["c"]
           (ScanResult {["c"]} {["a"; "a/b"]} ∅)
           (commit (Db [Row "/x" "c" 9] [])));
    [reflexivity | reflexivity | | | vm_compute; reflexivity].
  - intros r Hr. change (table db_x) with [Row "/x/a" "b" 5; Row "/x" "a" (-1)] in Hr.
    apply elem_of_cons in Hr as [-> | Hr]; [reflexivity|].
    apply list_elem_of_singleton in Hr as ->. reflexivity.
  - intros r Hr. change (table db_x) with [Row "/x/a" "b" 5; Row "/x" "a" (-1)] in Hr.
    apply elem_of_cons in Hr as [-> | Hr]; [discriminate|].
    apply list_elem_of_singleton in Hr as ->. intros _. split; [discriminate | reflexivity].
Defined.

(** * The tree scan on any file system *)

(** ** [scan] on a listed name without a row *)

Lemma scan_reports_new fs path d names name mtime is_dir res d' :
  os_listdir fs path = Some names → name ∈ names →
  os_stat fs (Path.join path name) = Some (mtime, is_dir) →
  (∀ m, Row path name m ∉ table d) →
  scan fs path d = Ok (res, d') →
  name ∈ created res.
Proof.
  intros Hnames Hin Hstat Hnew.
  assert (Hlist : __listdir fs path = Ok (__listdir_loop fs path names))
    by (unfold __listdir; by rewrite Hnames).
  destruct (scan_steps fs path d _ Hlist)
    as (res' & d1 & d2 & d3 & Hhelper & _ & _ & _ & Hscan).
  rewrite Hscan. intros [= <- _].
  destruct (scanhelper_spec d path _ _
              (old_files_of_well_keyed (select_where_path path d))
              (new_files_of_well_keyed (__listdir_loop fs path names)))
    as (tree & changed & Hres & _).
  rewrite Hres in Hhelper. injection Hhelper as <-. simpl.
  apply elem_of_difference. split.
  - apply new_files_of_listing. split; [done|]. by rewrite Hstat.
  - intros [v Hv]%elem_of_dom. rewrite old_files_of_lookup in Hv.
    destruct (latest name (select_where_path path d)) as [m|] eqn:Hlatest; [|done].
    apply latest_Some_elem, elem_of_select_where_path in Hlatest.
    by apply (Hnew m).
Qed.

Lemma scan_keeps_absent fs path d res d' p name :
  scan fs path d = Ok (res, d') → path ≠ p →
  (∀ m, Row p name m ∉ table d) → ∀ m, Row p name m ∉ table d'.
Proof.
  intros Hscan Hne Hnew m Hin.
  destruct (__listdir fs path) as [entries|] eqn:Hlist;
    [|by unfold scan in Hscan; rewrite Hlist in Hscan].
  destruct (scan_elsewhere fs path d entries Hlist) as (res' & d'' & Hscan' & Hrows).
  rewrite Hscan in Hscan'. injection Hscan' as <- <-.
  apply (Hrows (Row p name m)) in Hin as [Hin _]; [by apply (Hnew m)|].
  simpl. congruence.
Qed.

(** ** The recursion returns *)

Lemma scan_tree_loop_returns recurse fs path filenames :
  (∀ name mtime, name ∈ filenames →
     os_stat fs (Path.join path name) = Some (mtime, true) →
     ∀ d, ∃ out, recurse (Path.join path name) d = Ok out) →
  ∀ d, ∃ out, scan_tree_loop recurse fs path filenames d = Ok out.
Proof.
  induction filenames as [|f filenames IH]; intros Hrec d; simpl; [by eexists|].
  assert (Hrest : ∀ d, ∃ out, scan_tree_loop recurse fs path filenames d = Ok out).
  { apply IH. intros name mtime Hin. apply Hrec. by right. }
  destruct (os_stat fs (Path.join path f)) as [[m []]|] eqn:Hstat; [|apply Hrest..].
  destruct (Hrec f m (list_elem_of_here _ _) Hstat d) as ([sub d1] & ->). simpl.
  destruct (Hrest d1) as ([rest d2] & ->). simpl. by eexists.
Qed.

Lemma scan_tree_returns fuel fs path :
  listable_within fs fuel path = true →
  ∀ d, ∃ out, scan_tree fuel fs path d = Ok out.
Proof.
  revert path. induction fuel as [|fuel IH]; intros path; simpl; [done|].
  destruct (os_listdir fs path) as [names|] eqn:Hnames; [|done].
  intros Hall d. rewrite forallb_forall in Hall. rewrite scan_tree_S.
  assert (Hlist : __listdir fs path = Ok (__listdir_loop fs path names))
    by (unfold __listdir; by rewrite Hnames).
  destruct (scan_elsewhere fs path d _ Hlist) as (res & d1 & -> & _). simpl.
  rewrite Hnames. simpl.
  destruct (scan_tree_loop_returns (scan_tree fuel fs) fs path names) with (d := d1)
    as ([yielded d2] & ->); [|simpl; by eexists].
  intros name mtime Hin%list_elem_of_In Hstat. apply IH.
  specialize (Hall name Hin). simpl in Hall. by rewrite Hstat in Hall.
Qed.

(** ** Every reached directory is scanned *)

Lemma scan_tree_loop_reaches recurse fs path filenames d yielded d' name mtime :
  scan_tree_loop recurse fs path filenames d = Ok (yielded, d') →
  name ∈ filenames → os_stat fs (Path.join path name) = Some (mtime, true) →
  ∃ d1 sub d2, recurse (Path.join path name) d1 = Ok (sub, d2)
               ∧ ∀ x, x ∈ sub → x ∈ yielded.
Proof.
  revert d yielded d'.
  induction filenames as [|f filenames IH]; intros d yielded d' Hloop Hin Hstat;
    [by apply elem_of_nil in Hin|].
  simpl in Hloop.
  apply elem_of_cons in Hin as [-> | Hin].
  - rewrite Hstat in Hloop.
    destruct (recurse (Path.join path f) d) as [[sub d1]|] eqn:Hsub; [|done].
    simpl in Hloop.
    destruct (scan_tree_loop recurse fs path filenames d1) as [[rest d2]|]; [|done].
    simpl in Hloop. injection Hloop as <- <-.
    exists d, sub, d1. split; [done|]. intros x Hx. apply elem_of_app. by left.
  - destruct (os_stat fs (Path.join path f)) as [[m []]|];
      [|by eapply IH..].
    destruct (recurse (Path.join path f) d) as [[sub d1]|]; [|done].
    simpl in Hloop.
    destruct (scan_tree_loop recurse fs path filenames d1) as [[rest d2]|] eqn:Hrest;
      [|done].
    simpl in Hloop. injection Hloop as <- <-.
    destruct (IH _ _ _ Hrest Hin Hstat) as (da & sub' & db & Hsub' & Hincl).
    exists da, sub', db. split; [done|]. intros x Hx. apply elem_of_app. right. auto.
Qed.

Lemma scan_tree_reaches fuel fs path d yielded d' q :
  scan_tree fuel fs path d = Ok (yielded, d') →
  reachable fs path q → ∃ res, (q, res) ∈ yielded.
Proof.
  intros Htree Hreach. revert fuel d yielded d' Htree.
  induction Hreach as [p|p names name mtime q Hnames Hin Hstat Hreach IH];
    intros fuel d yielded d' Htree.
  - destruct (scan_tree_full _ _ _ _ _ _ Htree) as [(res & rest & ->) _].
    exists res. by left.
  - destruct fuel as [|fuel]; [done|]. rewrite scan_tree_S in Htree.
    destruct (scan fs p d) as [[res d1]|]; [|done]. simpl in Htree.
    rewrite Hnames in Htree. simpl in Htree.
    destruct (scan_tree_loop (scan_tree fuel fs) fs p names d1) as [[yl d2]|] eqn:Hloop;
      [|done].
    simpl in Htree. injection Htree as <- <-.
    destruct (scan_tree_loop_reaches _ _ _ _ _ _ _ _ _ Hloop Hin Hstat)
      as (da & sub & db & Hsub & Hincl).
    destruct (IH _ _ _ _ Hsub) as (res' & Hq).
    exists res'. right. by apply Hincl.
Qed.

(** ** A listed name without a row is reported where it is first scanned *)

Lemma scan_tree_loop_new recurse fs path filenames d yielded d' p name x :
  (∀ q d yielded d',
     recurse q d = Ok (yielded, d') → (∀ m, Row p name m ∉ table d) →
     (∃ res, (p, res) ∈ yielded ∧ x ∈ created res)
     ∨ ((∀ m, Row p name m ∉ table d') ∧ ∀ res, (p, res) ∉ yielded)) →
  scan_tree_loop recurse fs path filenames d = Ok (yielded, d') →
  (∀ m, Row p name m ∉ table d) →
  (∃ res, (p, res) ∈ yielded ∧ x ∈ created res)
  ∨ ((∀ m, Row p name m ∉ table d') ∧ ∀ res, (p, res) ∉ yielded).
Proof.
  intros Hrec. revert d yielded d'.
  induction filenames as [|f filenames IH]; intros d yielded d'; simpl.
  - intros [= <- <-] Hnew. right. split; [done|]. intros res. apply not_elem_of_nil.
  - destruct (os_stat fs (Path.join path f)) as [[m []]|]; [|apply IH..].
    destruct (recurse (Path.join path f) d) as [[sub d1]|] eqn:Hsub; [|done].
    simpl.
    destruct (scan_tree_loop recurse fs path filenames d1) as [[rest d2]|] eqn:Hrest;
      [|done].
    simpl. intros [= <- <-] Hnew.
    destruct (Hrec _ _ _ _ Hsub Hnew) as [(res & Hin & Hx)|[Hnew1 Hnot1]].
    { left. exists res. split; [|done]. apply elem_of_app. by left. }
    destruct (IH _ _ _ Hrest Hnew1) as [(res & Hin & Hx)|[Hnew2 Hnot2]].
    { left. exists res. split; [|done]. apply elem_of_app. by right. }
    right. split; [done|].
    intros res [Hin|Hin]%elem_of_app; [by apply (Hnot1 res) | by apply (Hnot2 res)].
Qed.

Lemma scan_tree_new fuel fs path d yielded d' p names name mtime is_dir :
  os_listdir fs p = Some names → name ∈ names →
  os_stat fs (Path.join p name) = Some (mtime, is_dir) →
  scan_tree fuel fs path d = Ok (yielded, d') →
  (∀ m, Row p name m ∉ table d) →
  (∃ res, (p, res) ∈ yielded ∧ p +:+ Path.sep +:+ name ∈ created res)
  ∨ ((∀ m, Row p name m ∉ table d') ∧ ∀ res, (p, res) ∉ yielded).
Proof.
  intros Hnames Hin Hstat. revert path d yielded d'.
  induction fuel as [|fuel IH]; intros path d yielded d'; [done|].
  rewrite scan_tree_S.
  destruct (scan fs path d) as [[res d1]|] eqn:Hscan; [|done]. simpl.
  destruct (os_listdir fs path) as [filenames|] eqn:Hfilenames; [|done]. simpl.
  destruct (scan_tree_loop (scan_tree fuel fs) fs path filenames d1) as [[yl d2]|]
    eqn:Hloop; [|done].
  simpl. intros [= <- <-] Hnew.
  destruct (decide (path = p)) as [-> | Hne].
  - left. exists (prepend_result p res). split; [by left|]. simpl.
    apply elem_of_prepend_path. exists name. split; [|done].
    exact (scan_reports_new _ _ _ _ _ _ _ _ _ Hnames Hin Hstat Hnew Hscan).
  - pose proof (scan_keeps_absent _ _ _ _ _ _ _ Hscan Hne Hnew) as Hnew1.
    destruct (scan_tree_loop_new _ _ _ _ _ _ _ _ _ _ IH Hloop Hnew1)
      as [(res' & Hin' & Hx)|[Hnew2 Hnot]].
    + left. exists res'. split; [by right | done].
    + right. split; [done|].
      intros res' [Heq|Hin']%elem_of_cons; [congruence | by apply (Hnot res')].
Qed.

(** The two together: whatever a returned tree scan reaches is reported.
    *)
Lemma scan_tree_reports_new_entries fuel fs path d yielded d' p names name mtime is_dir :
  scan_tree fuel fs path d = Ok (yielded, d') →
  reachable fs path p →
  os_listdir fs p = Some names → name ∈ names →
  os_stat fs (Path.join p name) = Some (mtime, is_dir) →
  (∀ m, Row p name m ∉ table d) →
  ∃ res, (p, res) ∈ yielded ∧ p +:+ Path.sep +:+ name ∈ created res.
Proof.
  intros Htree Hreach Hnames Hin Hstat Hnew.
  destruct (scan_tree_new _ _ _ _ _ _ _ _ _ _ _ Hnames Hin Hstat Htree Hnew)
    as [Hres|[_ Hnot]]; [done|].
  destruct (scan_tree_reaches _ _ _ _ _ _ _ Htree Hreach) as (res & Hq).
  by destruct (Hnot res).
Qed.

(** C7. One [scan_tree(path)] discovers what is new below [path], however
    deep: when [path] and every directory reached from it can be listed,
    the call returns, and for every directory [p] it reaches on the live
    file system (known to the table or not) and every name listed in [p] on
    which [os.stat] succeeds and for which the table holds no row, the
    yielded sequence holds a pair for [p] whose created set holds that name,
    with [p] and the separator in front. A new directory is thereby
    reported at its parent, and each of its descendants at its own parent.
    On the example: after the initial scan of the empty directory [/x],
    which stores nothing, and the creation of [/x/y/z.txt],
    [scan_tree("/x")] yields [y] as created under [/x] and then [z.txt] of
    [y] as created under [/x/y]. *)
Theorem scan_tree_discovers_new_subtree :
  (∀ fuel fs path d,
     listable_within fs fuel path = true →
     ∃ yielded d',
       scan_tree fuel fs path d = Ok (yielded, d')
       ∧ ∀ p names name mtime is_dir,
           reachable fs path p →
           os_listdir fs p = Some names → name ∈ names →
           os_stat fs (Path.join p name) = Some (mtime, is_dir) →
           (∀ m, Row p name m ∉ table d) →
           ∃ res, (p, res) ∈ yielded ∧ p +:+ Path.sep +:+ name ∈ created res)
  ∧ (∀ commit_interval extra,
       initial_scan commit_interval (1 + extra) fs_x_empty "/x" empty_db
       = Ok (PyNone, empty_db)
       ∧ count_where_path "/x/y" empty_db = 0
       ∧ scan_tree (2 + extra) fs_x_new "/x" empty_db
         = Ok ([("/x", ScanResult {["/x/y"]} ∅ ∅);
                ("/x/y", ScanResult {["/x/y/z.txt"]} ∅ ∅)],
               commit (Db [Row "/x" "y" (-1); Row "/x/y" "z.txt" 7] []))).
Proof.
  split; [|apply scan_tree_new_subtree_values].
  intros fuel fs path d Hlistable.
  destruct (scan_tree_returns _ _ _ Hlistable d) as ([yielded d'] & Htree).
  exists yielded, d'. split; [done|].
  intros p names name mtime is_dir.
  exact (scan_tree_reports_new_entries _ _ _ _ _ _ _ _ _ _ _ Htree).
Qed.

Lemma scan_tree_discovers_new_subtree_witness :
  listable_within fs_x_two 3 "/x" = true
  ∧ reachable fs_x_two "/x" "/x/w/v"
  ∧ ∃ yielded d',
      scan_tree 3 fs_x_two "/x" empty_db = Ok (yielded, d')
      ∧ (∃ res, ("/x/w/v", res) ∈ yielded ∧ "/x/w/v/u.txt" ∈ created res)
      ∧ (∃ res, ("/x", res) ∈ yielded ∧ "/x/w" ∈ created res).
Proof.
  assert (Hlistable : listable_within fs_x_two 3 "/x" = true) by reflexivity.
  assert (Hw : reachable fs_x_two "/x" "/x/w").
  { apply (reachable_below fs_x_two "/x" ["y"; "w"] "w" 4);
      [reflexivity | by right; left | reflexivity | apply reachable_here]. }
  assert (Hv : reachable fs_x_two "/x" "/x/w/v").
  { apply (reachable_below fs_x_two "/x" ["y"; "w"] "w" 4);
      [reflexivity | by right; left | reflexivity |].
    apply (reachable_below fs_x_two "/x/w" ["v"] "v" 5);
      [reflexivity | by left | reflexivity | apply reachable_here]. }
  split; [exact Hlistable|]. split; [exact Hv|].
  destruct (proj1 scan_tree_discovers_new_subtree 3%nat fs_x_two "/x" empty_db Hlistable)
    as (yielded & d' & Htree & Hnew).
  exists yielded, d'. split; [exact Htree|]. split.
  - apply (Hnew "/x/w/v" ["u.txt"] "u.txt" 8 false Hv);
      [reflexivity | by left | reflexivity | intros m; apply not_elem_of_nil].
  - apply (Hnew "/x" ["y"; "w"] "w" 4 true (reachable_here _ _));
      [reflexivity | by right; left | reflexivity | intros m; apply not_elem_of_nil].
Defined.
